(** * Assembly Explorer: the MSVC listing correlator of [src/extension.ts]

    A shallow embedding of the part of [AssemblyExplorer._decorateMSVC] that
    runs after the compiler has produced its listing: the line callback passed
    to [Lazy.readFile(asmpath).lines().each(...)] (the listing parser), and the
    [Array.from(...).map(...).sort(...)] expression that builds the returned
    [AssemblyListing[]] (the listing assembler).

    Further on, the other pure parts of the file: the rewriting of the compile
    command at the start of [_decorateMSVC], the editor decorations and the
    helper [pad] of [_documentChanged], and the script of the viewer in
    [provideTextDocumentContent].

    Modelling conventions.
    - A JavaScript string is a [string]: a sequence of code units, here the
      units below 256.
    - A JavaScript number that holds a line number is a [Z].  The source
      computes with doubles; on the integers that occur (line numbers of an
      editor document, far below 2^53) the two agree.
    - [Map<number, string[]>] is an association list in insertion order,
      which is the order [entries()] enumerates. *)

From Stdlib Require Import ZArith List String Ascii Bool Lia.
From Stdlib Require Import Sorted Permutation.
Import ListNotations.

Local Open Scope string_scope.
Local Open Scope Z_scope.

(** ** JavaScript primitives used by the source *)

Module Js.

Definition chars (s : string) : list ascii := list_ascii_of_string s.

Fixpoint prefixb (p l : list ascii) : bool :=
  match p, l with
  | [], _ => true
  | a :: p', b :: l' => Ascii.eqb a b && prefixb p' l'
  | _ :: _, [] => false
  end.

(** [s.startsWith(p)] *)
Definition startsWith (s p : string) : bool := prefixb (chars p) (chars s).

(** [s.endsWith(p)]: the last [p.length] units of [s] are those of [p]. *)
Definition endsWith (s p : string) : bool :=
  prefixb (rev (chars p)) (rev (chars s)).

(** WhiteSpace and LineTerminator code units below 256: TAB, LF, VT, FF, CR,
    SP and NBSP.  This is the class of [\s] and what [trim] strips. *)
Definition is_space (c : ascii) : bool :=
  existsb (Ascii.eqb c)
    ["009"; "010"; "011"; "012"; "013"; " "; "160"]%char.

(** The class of [\d]. *)
Definition is_digit (c : ascii) : bool :=
  existsb (Ascii.eqb c) ["0"; "1"; "2"; "3"; "4"; "5"; "6"; "7"; "8"; "9"]%char.

Fixpoint drop_while (f : ascii -> bool) (l : list ascii) : list ascii :=
  match l with
  | [] => []
  | c :: l' => if f c then drop_while f l' else l
  end.

Fixpoint take_while (f : ascii -> bool) (l : list ascii) : list ascii :=
  match l with
  | [] => []
  | c :: l' => if f c then c :: take_while f l' else []
  end.

(** [s.trim()] *)
Definition trim (s : string) : string :=
  string_of_list_ascii
    (rev (drop_while is_space (rev (drop_while is_space (chars s))))).

Definition digit_value (c : ascii) : Z := Z.of_nat (nat_of_ascii c) - 48.

(** [parseInt(d)] for a capture [d] of [\d+]: a non-empty run of ASCII
    digits, so the radix is ten and the result is the decimal value. *)
Definition parseInt (d : string) : Z :=
  fold_left (fun acc c => acc * 10 + digit_value c) (chars d) 0.

(** [xs.join(sep)] *)
Fixpoint join (sep : string) (xs : list string) : string :=
  match xs with
  | [] => ""
  | [x] => x
  | x :: rest => x ++ sep ++ join sep rest
  end.

(** [xs[i]] for a number [i]: [undefined] ([None]) outside the array. *)
Definition index {A} (xs : list A) (i : Z) : option A :=
  if i <? 0 then None else nth_error xs (Z.to_nat i).

(** *** [Map<number, string[]>] *)

Definition Map := list (Z * list string).

Definition has (m : Map) (k : Z) : bool :=
  existsb (fun e => fst e =? k) m.

Fixpoint get (m : Map) (k : Z) : option (list string) :=
  match m with
  | [] => None
  | (k', v) :: m' => if k' =? k then Some v else get m' k
  end.

(** [m.set(k, v)]: an existing key keeps its place, a new one goes last. *)
Fixpoint set (m : Map) (k : Z) (v : list string) : Map :=
  match m with
  | [] => [(k, v)]
  | (k', v') :: m' => if k' =? k then (k', v) :: m' else (k', v') :: set m' k v
  end.

(** [m.get(k).push(x)]: the array held by the map is updated in place. *)
Fixpoint push (m : Map) (k : Z) (x : string) : Map :=
  match m with
  | [] => []
  | (k', v) :: m' => if k' =? k then (k', (v ++ [x])%list) :: m' else (k', v) :: push m' k x
  end.

Definition keys (m : Map) : list Z := map fst m.

(** *** Arrays *)

(** [xs.findIndex(p)]: the index of the first element that satisfies [p],
    [-1] when there is none. *)
Fixpoint findIndex {A : Type} (p : A -> bool) (xs : list A) : Z :=
  match xs with
  | [] => -1
  | x :: rest =>
      if p x then 0
      else let i := findIndex p rest in if i <? 0 then -1 else i + 1
  end.

(** [xs.splice(start, deleteCount, ...items)]: the array [xs] holds after the
    call.  A negative [start] counts from the end; both arguments are clamped
    to the array. *)
Definition splice {A : Type} (xs : list A) (start deleteCount : Z)
    (items : list A) : list A :=
  let len := Z.of_nat (List.length xs) in
  let from := if start <? 0 then Z.max (len + start) 0 else Z.min start len in
  let count := Z.min (Z.max deleteCount 0) (len - from) in
  (firstn (Z.to_nat from) xs ++ items ++ skipn (Z.to_nat (from + count)) xs)%list.

(** [s.split(sep)] for a separator of one unit: [cur] holds, reversed, the
    units read since the last separator. *)
Fixpoint split_from (sep : ascii) (cur l : list ascii) : list string :=
  match l with
  | [] => [string_of_list_ascii (rev cur)]
  | c :: l' =>
      if Ascii.eqb c sep then string_of_list_ascii (rev cur) :: split_from sep [] l'
      else split_from sep (c :: cur) l'
  end.

Definition split (s : string) (sep : ascii) : list string :=
  split_from sep [] (chars s).

End Js.

(** ** The source constants and records *)

Definition TAB : string := String "009" EmptyString.
Definition CRLF : string := String "013" (String "010" EmptyString).

Definition COLORS : list string :=
  ["#fbb4ae"; "#b3cde3"; "#ccebc5"; "#decbe4"; "#fed9a6"; "#ffffcc"; "#e5d8bd"; "#fddaec"].

(** [interface AssemblyListing].  [color] is [COLORS[...]], which JavaScript
    evaluates to [undefined] ([None]) outside the array. *)
Record AssemblyListing := {
  line : Z;
  file : string;
  assembly : string;
  code : string;
  color : option string
}.

(** What the source reads of a [vscode.TextDocument]. *)
Record TextDocument := {
  fileName : string;
  text_lines : list string
}.

Definition lineCount (doc : TextDocument) : Z := Z.of_nat (List.length (text_lines doc)).

(** [doc.lineAt(i).text]; [lineAt] throws on an index outside
    [0 .. lineCount - 1], which is [None] here. *)
Definition lineAt (doc : TextDocument) (i : Z) : option string :=
  if (i <? 0) || (lineCount doc <=? i) then None
  else nth_error (text_lines doc) (Z.to_nat i).

(** The [state] object of [_decorateMSVC]. *)
Record State := {
  in_file : bool;
  in_text : bool;
  current_line : Z;
  line_content : Js.Map
}.

Definition initial_state : State :=
  {| in_file := false; in_text := false; current_line := 0; line_content := [] |}.

(** [line_re = /^;\s+(\d+)\s+:/] and [line_re.exec(line)], returning the
    capture [mat[1]].  The three classes [\s], [\d] and [:] are pairwise
    disjoint, so the greedy match is the only one: backtracking a quantifier
    leaves a unit of its own class in front of the next atom. *)
Definition line_re_exec (l : string) : option string :=
  match Js.chars l with
  | ";"%char :: r0 =>
      let ws1 := Js.take_while Js.is_space r0 in
      let r1 := Js.drop_while Js.is_space r0 in
      let ds := Js.take_while Js.is_digit r1 in
      let r2 := Js.drop_while Js.is_digit r1 in
      let ws2 := Js.take_while Js.is_space r2 in
      let r3 := Js.drop_while Js.is_space r2 in
      match ws1, ds, ws2, r3 with
      | _ :: _, _ :: _, _ :: _, ":"%char :: _ => Some (string_of_list_ascii ds)
      | _, _, _, _ => None
      end
  | _ => None
  end.

(** ** The listing parser: the callback of [.each] *)

Section Parser.

(** [tmppath], the path the compiler echoes, and [doc.lineCount]. *)
Variable tmppath : string.
Variable total_lines : Z.

Definition is_file_directive (l : string) : bool :=
  Js.startsWith l "; File ".

Definition names_target (l : string) : bool :=
  String.eqb (Js.trim l) ("; File " ++ tmppath).

Definition is_segment_open (l : string) : bool :=
  Js.startsWith l "_TEXT" && Js.endsWith l "SEGMENT".

Definition is_segment_close (l : string) : bool :=
  Js.endsWith l "ENDP" || (Js.startsWith l "_TEXT" && Js.endsWith l "ENDS").

Definition each_line (state : State) (l : string) : State :=
  if is_file_directive l then
    if names_target l then
      {| in_file := true;
         in_text := in_text state;
         current_line := current_line state;
         line_content := line_content state |}
    else
      {| in_file := false;
         in_text := false;
         current_line := 0;
         line_content := line_content state |}
  else if negb (in_file state) then state
  else if is_segment_open l then
    {| in_file := in_file state;
       in_text := true;
       current_line := current_line state;
       line_content := line_content state |}
  else if is_segment_close l then
    {| in_file := false;
       in_text := false;
       current_line := 0;
       line_content := line_content state |}
  else if Js.startsWith l ";" then
    match line_re_exec l with
    | Some d =>
        let n := Js.parseInt d in
        if (n >? total_lines) || Js.has (line_content state) n then
          {| in_file := in_file state;
             in_text := in_text state;
             current_line := 0;
             line_content := line_content state |}
        else
          {| in_file := in_file state;
             in_text := in_text state;
             current_line := n;
             line_content := line_content state |}
    | None => state
    end
  else if String.eqb (Js.trim l) "" then state
  else if negb (Js.startsWith l TAB) then
    {| in_file := in_file state;
       in_text := in_text state;
       current_line := 0;
       line_content := line_content state |}
  else if negb (current_line state =? 0) then
    match Js.get (line_content state) (current_line state) with
    | None =>
        {| in_file := in_file state;
           in_text := in_text state;
           current_line := current_line state;
           line_content := Js.set (line_content state) (current_line state) [l] |}
    | Some _ =>
        {| in_file := in_file state;
           in_text := in_text state;
           current_line := current_line state;
           line_content := Js.push (line_content state) (current_line state) l |}
    end
  else state.

(** The state after the callback has seen [ls], from [state]. *)
Definition run_from (state : State) (ls : list string) : State :=
  fold_left each_line ls state.

Definition run (ls : list string) : State := run_from initial_state ls.

(** The mapping [state.line_content] once the stream completes. *)
Definition parse (ls : list string) : Js.Map := line_content (run ls).

End Parser.

(** ** The listing assembler: [Array.from(entries()).map(...).sort(...)] *)

(** A call either returns or throws; for the [async] function the latter is a
    rejected promise. *)
Inductive Completion (A : Type) : Type :=
| Returned (a : A)
| Thrown.
Arguments Returned {A} a.
Arguments Thrown {A}.

Section Assembler.

Variable doc : TextDocument.

(** The arrow function given to [.map]: one entry of the map to one
    [AssemblyListing].  [%] is the remainder that takes the sign of the
    dividend, [Z.rem]. *)
Definition listing_of (e : Z * list string) : Completion AssemblyListing :=
  let (lineno, asms) := e in
  match lineAt doc (Z.min lineno (lineCount doc) - 1) with
  | Some text =>
      Returned {| line := lineno;
                  file := fileName doc;
                  assembly := Js.join CRLF asms;
                  code := text;
                  color := Js.index COLORS
                             (Z.rem (lineno * 11) (Z.of_nat (List.length COLORS))) |}
  | None => Thrown
  end.

(** [.map(f)] with a callback that may throw. *)
Fixpoint map_entries (m : Js.Map) : Completion (list AssemblyListing) :=
  match m with
  | [] => Returned []
  | e :: m' =>
      match listing_of e with
      | Thrown => Thrown
      | Returned a =>
          match map_entries m' with
          | Thrown => Thrown
          | Returned rest => Returned (a :: rest)
          end
      end
  end.

(** [.sort((a, b) => a.line - b.line)], as a stable insertion sort: [a]
    stays in front of [b] unless the comparator is positive. *)
Fixpoint insert_by_line (a : AssemblyListing) (sorted : list AssemblyListing)
  : list AssemblyListing :=
  match sorted with
  | [] => [a]
  | b :: rest =>
      if line a - line b <=? 0 then a :: sorted else b :: insert_by_line a rest
  end.

Definition sort_by_line (xs : list AssemblyListing) : list AssemblyListing :=
  fold_right insert_by_line [] xs.

Definition assemble (m : Js.Map) : Completion (list AssemblyListing) :=
  match map_entries m with
  | Thrown => Thrown
  | Returned xs => Returned (sort_by_line xs)
  end.

End Assembler.

(** ** [_decorateMSVC], from the creation of [state] on

    [doc] is the document of the editor, which can change while the listing
    is read: the callback reads [doc.lineCount] each time it runs.  The
    stream is therefore the lines it delivers, each with the document as it
    is when the callback runs on that line.  What follows [await pr] runs in
    one go, on the document as it is then.

    The definitions are for a stream that delivers its lines and completes.
    What Lazy.js does when the listing cannot be read is not modelled. *)
Definition each_line_live (tmppath : string) (state : State)
    (ev : TextDocument * string) : State :=
  each_line tmppath (lineCount (fst ev)) state (snd ev).

Definition run_live (tmppath : string) (stream : list (TextDocument * string))
  : State :=
  fold_left (each_line_live tmppath) stream initial_state.

Definition _decorateMSVC (tmppath : string)
    (stream : list (TextDocument * string)) (doc : TextDocument)
  : Completion (list AssemblyListing) :=
  assemble doc (line_content (run_live tmppath stream)).

(** The stream of a listing that is read while the document stays as it
    is. *)
Definition unchanged (doc : TextDocument) (ls : list string)
  : list (TextDocument * string) :=
  map (pair doc) ls.

(** ** The compile command of [_decorateMSVC]

    The statements between [const args = command.slice(1)] and the call of
    the compiler: [args] loses the flags that name output files and debug
    information, and gains those that ask for a listing.  [asmpath] and
    [tmppath] come from Node's [path] module and are taken as given. *)

(** [item => item.startsWith('-' + flag) || item.startsWith('/' + flag)] *)
Definition carries (flag item : string) : bool :=
  Js.startsWith item ("-" ++ flag) || Js.startsWith item ("/" ++ flag).

(** The body of the first loop, for one [remove_prefix]: a flag that is the
    bare prefix goes with the argument after it.  [args[idx]] is an element,
    [idx] being an index [findIndex] returned. *)
Definition remove_output_flag (args : list string) (remove_prefix : string)
  : list string :=
  let idx := Js.findIndex (carries remove_prefix) args in
  if idx <? 0 then args
  else
    match Js.index args idx with
    | Some arg =>
        if Z.of_nat (String.length arg) =? Z.of_nat (String.length remove_prefix) + 1
        then Js.splice args idx 2 []
        else Js.splice args idx 1 []
    | None => args
    end.

(** The body of the second loop, for one [remove]. *)
Definition remove_debug_flag (args : list string) (remove : string)
  : list string :=
  let idx := Js.findIndex (carries remove) args in
  if 0 <=? idx then Js.splice args idx 1 [] else args.

(** [item => !!item.match(/^[/-]c/)] *)
Definition matches_c (item : string) : bool :=
  match Js.chars item with
  | c0 :: c1 :: _ =>
      (Ascii.eqb c0 "/" || Ascii.eqb c0 "-") && Ascii.eqb c1 "c"
  | _ => false
  end.

(** The removal of the compile-only flag, [out_idx] and [out_arg]. *)
Definition remove_compile_flag (args : list string) : list string :=
  let out_idx := Js.findIndex matches_c args in
  if 0 <=? out_idx then
    match Js.index args out_idx with
    | Some out_arg =>
        if Z.of_nat (String.length out_arg) =? 2
        then Js.splice args out_idx 2 []
        else Js.splice args out_idx 1 []
    | None => args
    end
  else args.

Definition output_prefixes : list string :=
  ["Fo"; "Fd"; "Fm"; "Fa"; "Fp"; "Fe"; "Fr"; "Fi"].

Definition debug_flags : list string := ["Zi"; "Z7"].

(** [args] once the three removals are done. *)
Definition stripped_args (args : list string) : list string :=
  remove_compile_flag
    (fold_left remove_debug_flag debug_flags
       (fold_left remove_output_flag output_prefixes args)).

(** [args] as handed to [cmt.execute]. *)
Definition listing_args (args : list string) (asmpath tmppath : string)
  : list string :=
  let args := stripped_args args in
  let args := (args ++ ["-c"; tmppath])%list in
  let args := Js.splice args 0 0 ["/Fo" ++ asmpath ++ ".obj"] in
  Js.splice args 0 0 ["/FAs"; "/Fa" ++ asmpath].

(** ** The editor decorations of [_documentChanged]

    The callback of [pr.then], for a listing that is not [null]: one
    [DecorationOptions] for each entry.  [range] is the range of a whole
    line of the document and is kept as the index of that line. *)
Record DecorationOptions := {
  hoverMessage : string;
  backgroundColor : option string;
  range : Z
}.

Definition decoration_of (doc : TextDocument) (asm : AssemblyListing)
  : Completion DecorationOptions :=
  let i := Z.min (line asm) (lineCount doc) - 1 in
  match lineAt doc i with
  | Some _ =>
      Returned {| hoverMessage := assembly asm;
                  backgroundColor := color asm;
                  range := i |}
  | None => Thrown
  end.

Fixpoint decorations (doc : TextDocument) (listing : list AssemblyListing)
  : Completion (list DecorationOptions) :=
  match listing with
  | [] => Returned []
  | asm :: rest =>
      match decoration_of doc asm with
      | Thrown => Thrown
      | Returned d =>
          match decorations doc rest with
          | Thrown => Thrown
          | Returned ds => Returned (d :: ds)
          end
      end
  end.

(** ** The script of the viewer, in [provideTextDocumentContent]

    The script receives the listing as [asm] and the palette as [colors];
    it sets the text of the editor and gives each line a class. *)







(** ** [pad], the helper of [_documentChanged]

    [Array(n).join(pad) + str] with [n = Math.max(0, count - str.length)],
    for an integer [count].  [Array(n)] throws a RangeError unless [n] is
    below 2^32; otherwise it is an array of [n] holes, which join as [n] empty
    strings.  A string longer than the engine allows cannot be built, the
    concatenation throws a RangeError: [max_string_length] is that bound, a
    constant of the engine that is at most 2^53 - 1. *)
Definition pad (max_string_length : Z) (str pad : string) (count : Z)
  : Completion string :=
  let n := Z.max 0 (count - Z.of_nat (String.length str)) in
  if 4294967296 <=? n then Thrown
  else
    let s := Js.join pad (repeat "" (Z.to_nat n)) ++ str in
    if max_string_length <? Z.of_nat (String.length s) then Thrown
    else Returned s.

(** ** Definitions used to state the properties *)

(** The order of the result: by [line]. *)
Definition line_le (a b : AssemblyListing) : Prop := line a <= line b.
Definition line_lt (a b : AssemblyListing) : Prop := line a < line b.

(** What every state reached from [initial_state] satisfies: the keys of
    the map are distinct line numbers within [1 .. total_lines], the current
    line is the sentinel [0] or such a number, and it is the sentinel
    whenever the parser is outside the target file. *)
Record Inv (total_lines : Z) (st : State) : Prop := {
  inv_nodup : NoDup (Js.keys (line_content st));
  inv_keys : Forall (fun k => 1 <= k <= total_lines) (Js.keys (line_content st));
  inv_current : current_line st = 0 \/ 1 <= current_line st <= total_lines;
  inv_outside : in_file st = false -> current_line st = 0
}.

(** An instruction line: a tab, then the instruction. *)
Definition instr (s : string) : string := TAB ++ s.

(** A three-line source document for the concrete instances below. *)
Definition sample_doc : TextDocument :=
  {| fileName := "t.c"; text_lines := ["int f()"; "{ return 1;"; "}"] |}.

(** A listing in the shape the compiler writes: a function of a header, then
    the function of the target file, its lines out of order and one of them
    announced twice. *)
Definition sample_listing : list string :=
  [ "; Listing generated by Microsoft (R) Optimizing Compiler";
    "";
    "; File c:\src\other.h";
    "_TEXT" ++ TAB ++ "SEGMENT";
    "; 1    : inline int g() { return 2; }";
    instr "mov eax, 2";
    "_g" ++ TAB ++ "ENDP";
    "; Function compile flags: /Odtp";
    "; File .asme-t.c";
    "_TEXT" ++ TAB ++ "SEGMENT";
    "_f" ++ TAB ++ "PROC";
    "; 2    : { return 1;";
    instr "mov eax, 1";
    "; 1    : int f()";
    instr "push ebp";
    "";
    "; 3    : }";
    instr "ret 0";
    "; 2    : { return 1;";
    instr "nop";
    "_f" ++ TAB ++ "ENDP";
    "_TEXT" ++ TAB ++ "ENDS";
    instr "int 3" ].

(** [Subseq xs ys]: [xs] is [ys] with some elements left out, the others in
    their order. *)
Inductive Subseq {A : Type} : list A -> list A -> Prop :=
| Subseq_nil : Subseq [] []
| Subseq_keep (x : A) (xs ys : list A) : Subseq xs ys -> Subseq (x :: xs) (x :: ys)
| Subseq_drop (y : A) (xs ys : list A) : Subseq xs ys -> Subseq xs (y :: ys).

(** The flags the compile command loses: the output prefixes, the debug
    flags, and [c]. *)
Definition removed_flags : list string :=
  (output_prefixes ++ debug_flags ++ ["c"])%list.

(** What one removal does to [args], for the flag [f] it looks for and the
    number [d] of arguments it may take away. *)
Definition removal_spec (d : Z) (f : string) (args args' : list string) : Prop :=
  Subseq args' args /\
  Z.of_nat (List.length args) <= Z.of_nat (List.length args') + d /\
  (List.length (filter (carries f) args') <=
     pred (List.length (filter (carries f) args)))%nat /\
  (Forall (fun item => carries f item = false) args -> args' = args).

(** [grows m m']: the map [m'] has the keys of [m], in their order, then
    possibly more, and holds for each key of [m] the instructions [m] has,
    then possibly more. *)
Definition grows (m m' : Js.Map) : Prop :=
  (exists ks, Js.keys m' = (Js.keys m ++ ks)%list) /\
  (forall k v, Js.get m k = Some v ->
               exists w, Js.get m' k = Some (v ++ w)%list).

(** A line that is no file-boundary directive naming [tmppath]. *)
Definition not_target (tmppath l : string) : Prop :=
  is_file_directive l && names_target tmppath l = false.



(** Two states that differ at most in [in_text]. *)
Definition same_but_in_text (st st' : State) : Prop :=
  in_file st = in_file st' /\
  current_line st = current_line st' /\
  line_content st = line_content st'.


(** The document has, when the result is built, at least the lines it had
    each time the parser read its line count. *)
Definition not_shrunk (stream : list (TextDocument * string))
    (doc : TextDocument) : Prop :=
  Forall (fun ev => lineCount (fst ev) <= lineCount doc) stream.


(** * Properties *)

(** ** Strings and the directive pattern *)

Module JsFacts.
Import Js.

Lemma prefixb_cons_inv (a : ascii) (p l : list ascii) :
  prefixb (a :: p) l = true -> exists l', l = a :: l' /\ prefixb p l' = true.
Proof.
  destruct l as [|b l']; simpl; [discriminate|].
  intros H. apply andb_prop in H as [Hab Hp].
  apply Ascii.eqb_eq in Hab. subst b. now exists l'.
Qed.

(** Two prefixes of one string agree on their first unit. *)
Lemma prefixb_head_agree (a b : ascii) (p q l : list ascii) :
  prefixb (a :: p) l = true -> prefixb (b :: q) l = true -> a = b.
Proof.
  intros Hp Hq.
  apply prefixb_cons_inv in Hp as (l1 & -> & _).
  apply prefixb_cons_inv in Hq as (l2 & E & _).
  now inversion E.
Qed.

Lemma startsWith_semicolon_not_TEXT (l : string) :
  startsWith l ";" = true -> startsWith l "_TEXT" = false.
Proof.
  unfold startsWith. intros H.
  destruct (prefixb (chars "_TEXT") (chars l)) eqn:E; [|reflexivity].
  pose proof (prefixb_head_agree _ _ _ _ _ H E). discriminate.
Qed.

Lemma endsWith_SEGMENT_not_ENDP (l : string) :
  endsWith l "SEGMENT" = true -> endsWith l "ENDP" = false.
Proof.
  unfold endsWith. intros H.
  destruct (prefixb (rev (chars "ENDP")) (rev (chars l))) eqn:E; [|reflexivity].
  pose proof (prefixb_head_agree _ _ _ _ _ H E). discriminate.
Qed.

Lemma endsWith_SEGMENT_not_ENDS (l : string) :
  endsWith l "SEGMENT" = true -> endsWith l "ENDS" = false.
Proof.
  unfold endsWith. intros H.
  destruct (prefixb (rev (chars "ENDS")) (rev (chars l))) eqn:E; [|reflexivity].
  pose proof (prefixb_head_agree _ _ _ _ _ H E). discriminate.
Qed.

Lemma take_while_all (f : ascii -> bool) (l : list ascii) :
  Forall (fun c => f c = true) (take_while f l).
Proof.
  induction l as [|c l IH]; simpl; [constructor|].
  destruct (f c) eqn:E; constructor; assumption.
Qed.

Lemma is_digit_value (c : ascii) :
  is_digit c = true -> 0 <= digit_value c <= 9.
Proof.
  unfold is_digit. simpl. rewrite !orb_true_iff, !Ascii.eqb_eq.
  unfold digit_value.
  intros H; repeat (destruct H as [-> | H]; [simpl; lia|]); discriminate.
Qed.

Lemma parseInt_digits_nonneg (ds : list ascii) :
  Forall (fun c => is_digit c = true) ds ->
  0 <= parseInt (string_of_list_ascii ds).
Proof.
  unfold parseInt, chars. rewrite list_ascii_of_string_of_list_ascii.
  assert (G : forall acc, 0 <= acc ->
            Forall (fun c => is_digit c = true) ds ->
            0 <= fold_left (fun a c => a * 10 + digit_value c) ds acc).
  { induction ds as [|c ds IH]; simpl; intros acc Hacc Hall; [assumption|].
    inversion Hall; subst. apply IH; [|assumption].
    pose proof (is_digit_value c H1). lia. }
  apply G. lia.
Qed.

End JsFacts.

Section PatternFacts.
Import Js JsFacts.

(** What a match of [line_re] says about the line. *)
Lemma line_re_exec_Some (l d : string) :
  line_re_exec l = Some d ->
  exists r0,
    chars l = ";"%char :: r0 /\
    take_while is_digit (drop_while is_space r0) <> [] /\
    d = string_of_list_ascii (take_while is_digit (drop_while is_space r0)).
Proof.
  unfold line_re_exec.
  destruct (chars l) as [|c r0]; [discriminate|].
  destruct c as [[] [] [] [] [] [] [] []]; try discriminate.
  remember (drop_while is_space r0) as r1 eqn:Er1.
  remember (take_while is_digit r1) as ds eqn:Eds.
  remember (drop_while is_digit r1) as r2 eqn:Er2.
  destruct (take_while is_space r0); [discriminate|].
  destruct ds as [|d0 ds']; [discriminate|].
  destruct (take_while is_space r2); [discriminate|].
  destruct (drop_while is_space r2) as [|c r3]; [discriminate|].
  destruct c as [[] [] [] [] [] [] [] []]; try discriminate.
  intros H. inversion H. exists r0. rewrite <- Er1, <- Eds.
  split; [reflexivity|split; [discriminate|reflexivity]].
Qed.

Lemma line_re_startsWith_semicolon (l d : string) :
  line_re_exec l = Some d -> startsWith l ";" = true.
Proof.
  intros H. apply line_re_exec_Some in H as (r0 & E & _).
  unfold startsWith. rewrite E. reflexivity.
Qed.

(** The captured digits always parse, to a non-negative integer. *)
Lemma line_re_parseInt_nonneg (l d : string) :
  line_re_exec l = Some d -> 0 <= parseInt d.
Proof.
  intros H. apply line_re_exec_Some in H as (r0 & _ & _ & ->).
  apply parseInt_digits_nonneg, take_while_all.
Qed.

(** A file-boundary directive never matches [line_re]: after the blank comes
    [F], not a digit. *)
Lemma file_directive_not_line_re (l : string) :
  is_file_directive l = true -> line_re_exec l = None.
Proof.
  unfold is_file_directive, startsWith. intros H.
  destruct (line_re_exec l) as [d|] eqn:E; [|reflexivity].
  apply line_re_exec_Some in E as (r0 & Ec & Hne & _).
  rewrite Ec in H.
  apply prefixb_cons_inv in H as (l1 & E1 & H). inversion E1; subst l1.
  apply prefixb_cons_inv in H as (l2 & -> & H).
  apply prefixb_cons_inv in H as (l3 & -> & _).
  exfalso. apply Hne. reflexivity.
Qed.

Lemma line_re_not_file_directive (l d : string) :
  line_re_exec l = Some d -> is_file_directive l = false.
Proof.
  intros H. destruct (is_file_directive l) eqn:E; [|reflexivity].
  apply file_directive_not_line_re in E. congruence.
Qed.

Lemma segment_close_not_open (l : string) :
  is_segment_close l = true -> is_segment_open l = false.
Proof.
  unfold is_segment_close, is_segment_open. intros H.
  destruct (endsWith l "SEGMENT") eqn:E; [|now rewrite andb_false_r].
  rewrite (endsWith_SEGMENT_not_ENDP _ E), (endsWith_SEGMENT_not_ENDS _ E) in H.
  now rewrite andb_false_r in H.
Qed.

End PatternFacts.

(** ** The map operations *)

Module MapFacts.
Import Js.

Lemma has_true_iff (m : Map) (k : Z) : has m k = true <-> In k (keys m).
Proof.
  unfold has, keys. rewrite existsb_exists, in_map_iff.
  split; intros (e & H1 & H2).
  - exists e. split; [now apply Z.eqb_eq|assumption].
  - exists e. split; [assumption|now apply Z.eqb_eq].
Qed.

Lemma get_None_iff (m : Map) (k : Z) : get m k = None <-> ~ In k (keys m).
Proof.
  induction m as [|[k' v] m IH]; simpl.
  - tauto.
  - destruct (Z.eqb_spec k' k) as [->|Hne].
    + split; [discriminate|]. intros H. exfalso. apply H. now left.
    + rewrite IH. tauto.
Qed.

Lemma keys_set_fresh (m : Map) (k : Z) (v : list string) :
  get m k = None -> keys (set m k v) = (keys m ++ [k])%list.
Proof.
  induction m as [|[k' v'] m IH]; simpl; [reflexivity|].
  destruct (k' =? k); [discriminate|].
  intros H. simpl. now rewrite (IH H).
Qed.

Lemma keys_push (m : Map) (k : Z) (x : string) : keys (push m k x) = keys m.
Proof.
  induction m as [|[k' v] m IH]; simpl; [reflexivity|].
  destruct (k' =? k); simpl; [reflexivity|now rewrite IH].
Qed.

End MapFacts.

(** ** Invariants of the parser state *)

Section ParserInvariant.
Import Js JsFacts MapFacts.

Variable tmppath : string.
Variable total_lines : Z.

Lemma Inv_initial : Inv total_lines initial_state.
Proof.
  constructor; simpl; auto using NoDup_nil.
Qed.

Lemma Inv_each_line (st : State) (l : string) :
  Inv total_lines st -> Inv total_lines (each_line tmppath total_lines st l).
Proof.
  intros H. pose proof H as [Hnd Hk Hc Ho]. unfold each_line.
  destruct (is_file_directive l).
  { destruct (names_target tmppath l); constructor; simpl; auto; discriminate. }
  destruct (in_file st) eqn:Ein; simpl; [|assumption].
  destruct (is_segment_open l).
  { constructor; simpl; auto; discriminate. }
  destruct (is_segment_close l).
  { constructor; simpl; auto. }
  destruct (startsWith l ";").
  { (* a comment: a line-number directive, or nothing *)
    destruct (line_re_exec l) as [d|] eqn:Ere; [|assumption].
    destruct (_ || _) eqn:Eskip; constructor; simpl; auto; try discriminate.
    apply orb_false_elim in Eskip as [Hgt _].
    pose proof (line_re_parseInt_nonneg _ _ Ere).
    rewrite Z.gtb_ltb in Hgt. apply Z.ltb_ge in Hgt. lia. }
  destruct (String.eqb (trim l) ""); [assumption|].
  destruct (startsWith l TAB); simpl.
  2:{ constructor; simpl; auto. }
  destruct (Z.eqb_spec (current_line st) 0) as [E0|Hne]; simpl; [assumption|].
  destruct Hc as [Hc|Hc]; [contradiction|].
  destruct (get (line_content st) (current_line st)) eqn:Eget.
  - (* a further instruction for the current line *)
    constructor; simpl; auto; try discriminate; now rewrite keys_push.
  - (* the first instruction for the current line *)
    constructor; simpl; auto; try discriminate;
      rewrite keys_set_fresh by assumption.
    + apply NoDup_app; [assumption|repeat constructor; simpl; tauto|].
      intros x Hx [<-|[]]. now apply get_None_iff in Eget.
    + apply Forall_app. split; [assumption|now constructor].
Qed.

Lemma Inv_run_from (ls : list string) (st : State) :
  Inv total_lines st -> Inv total_lines (run_from tmppath total_lines st ls).
Proof.
  revert st. induction ls as [|l ls IH]; simpl; intros st H; [assumption|].
  apply IH, Inv_each_line, H.
Qed.

Lemma Inv_run (ls : list string) : Inv total_lines (run tmppath total_lines ls).
Proof. apply Inv_run_from, Inv_initial. Qed.

End ParserInvariant.

(** ** The assembler: mapping and sorting *)

Section SortFacts.

Lemma insert_by_line_perm (a : AssemblyListing) (xs : list AssemblyListing) :
  Permutation (a :: xs) (insert_by_line a xs).
Proof.
  induction xs as [|b xs IH]; simpl; [reflexivity|].
  destruct (line a - line b <=? 0); [reflexivity|].
  rewrite perm_swap. now apply perm_skip.
Qed.

Lemma sort_by_line_perm (xs : list AssemblyListing) :
  Permutation xs (sort_by_line xs).
Proof.
  induction xs as [|a xs IH]; simpl; [reflexivity|].
  rewrite <- insert_by_line_perm. now apply perm_skip.
Qed.

Lemma insert_by_line_sorted (a : AssemblyListing) (xs : list AssemblyListing) :
  StronglySorted line_le xs -> StronglySorted line_le (insert_by_line a xs).
Proof.
  induction 1 as [|b xs Hs IH Hb]; simpl.
  - repeat constructor.
  - destruct (Z.leb_spec (line a - line b) 0) as [Hle|Hgt].
    + constructor; [now constructor|].
      constructor; [unfold line_le; lia|].
      eapply Forall_impl; [|exact Hb]. unfold line_le. intros c Hc. lia.
    + constructor; [assumption|].
      eapply Permutation_Forall; [apply insert_by_line_perm|].
      constructor; [unfold line_le; lia|assumption].
Qed.

Lemma sort_by_line_sorted (xs : list AssemblyListing) :
  StronglySorted line_le (sort_by_line xs).
Proof.
  induction xs as [|a xs IH]; simpl; [constructor|].
  now apply insert_by_line_sorted.
Qed.

(** Sorted without repetition is strictly sorted. *)
Lemma sorted_nodup_strict (xs : list AssemblyListing) :
  StronglySorted line_le xs -> NoDup (map line xs) ->
  StronglySorted line_lt xs.
Proof.
  induction 1 as [|a xs Hs IH Ha]; simpl; intros Hnd; [constructor|].
  inversion Hnd as [|? ? Hnotin Hnd']; subst.
  constructor; [now apply IH|].
  rewrite Forall_forall in *. intros b Hb.
  specialize (Ha b Hb). unfold line_le, line_lt in *.
  assert (line a <> line b); [|lia].
  intros E. apply Hnotin. rewrite E. now apply in_map.
Qed.

End SortFacts.

Section AssemblerFacts.

Variable doc : TextDocument.

Lemma listing_of_Returned (k : Z) (asms : list string) (a : AssemblyListing) :
  listing_of doc (k, asms) = Returned a ->
  line a = k /\
  file a = fileName doc /\
  assembly a = Js.join CRLF asms /\
  lineAt doc (Z.min k (lineCount doc) - 1) = Some (code a) /\
  color a = Js.index COLORS (Z.rem (k * 11) 8).
Proof.
  unfold listing_of.
  destruct (lineAt doc (Z.min k (lineCount doc) - 1)); [|discriminate].
  intros H. inversion H. simpl. auto.
Qed.

(** [.map] keeps the entries in order, one listing for each. *)
Lemma map_entries_Returned (m : Js.Map) (xs : list AssemblyListing) :
  map_entries doc m = Returned xs ->
  Forall2 (fun e a => listing_of doc e = Returned a) m xs.
Proof.
  revert xs. induction m as [|e m IH]; simpl; intros xs H.
  - inversion H. constructor.
  - destruct (listing_of doc e) as [a|] eqn:Ea; [|discriminate].
    destruct (map_entries doc m) as [rest|]; [|discriminate].
    inversion H. constructor; auto.
Qed.

Lemma map_entries_lines (m : Js.Map) (xs : list AssemblyListing) :
  map_entries doc m = Returned xs -> map line xs = Js.keys m.
Proof.
  intros H. apply map_entries_Returned in H.
  induction H as [|[k asms] a m xs Ha _ IH]; simpl; [reflexivity|].
  apply listing_of_Returned in Ha as (-> & _). now rewrite IH.
Qed.

(** [lineAt] is applied within the document as soon as the line number is
    positive and the document has a line. *)
Lemma lineAt_clamped (k : Z) :
  1 <= k -> 1 <= lineCount doc ->
  exists text, lineAt doc (Z.min k (lineCount doc) - 1) = Some text.
Proof.
  intros Hk Hn. unfold lineAt.
  destruct (Z.ltb_spec (Z.min k (lineCount doc) - 1) 0); [lia|].
  destruct (Z.leb_spec (lineCount doc) (Z.min k (lineCount doc) - 1)); [lia|].
  simpl.
  destruct (nth_error (text_lines doc) (Z.to_nat (Z.min k (lineCount doc) - 1)))
    as [text|] eqn:E; [now exists text|].
  apply nth_error_None in E. unfold lineCount in *. lia.
Qed.

Lemma map_entries_total (m : Js.Map) :
  Forall (fun k => 1 <= k) (Js.keys m) -> 1 <= lineCount doc ->
  exists xs, map_entries doc m = Returned xs.
Proof.
  intros Hk Hn. induction m as [|[k asms] m IH]; simpl.
  - now exists [].
  - inversion Hk as [|? ? Hk1 Hk']; subst.
    destruct (lineAt_clamped k Hk1 Hn) as [text ->].
    destruct (IH Hk') as [rest ->]. eauto.
Qed.

Lemma assemble_Returned (m : Js.Map) (out : list AssemblyListing) :
  assemble doc m = Returned out ->
  exists xs, map_entries doc m = Returned xs /\ out = sort_by_line xs.
Proof.
  unfold assemble. destruct (map_entries doc m) as [xs|]; [|discriminate].
  intros H. inversion H. now exists xs.
Qed.

End AssemblerFacts.

(** ** Running the parser over a listing *)

Section RunFacts.
Import Js JsFacts MapFacts.

Variable tmppath : string.
Variable total_lines : Z.

Lemma run_from_app (st : State) (xs ys : list string) :
  run_from tmppath total_lines st (xs ++ ys) =
  run_from tmppath total_lines (run_from tmppath total_lines st xs) ys.
Proof. apply fold_left_app. Qed.

Lemma run_snoc (xs : list string) (l : string) :
  run tmppath total_lines (xs ++ [l]) =
  each_line tmppath total_lines (run tmppath total_lines xs) l.
Proof. unfold run. now rewrite run_from_app. Qed.

(** A comment that is no directive of any kind is skipped. *)
Lemma each_line_plain_comment (st : State) (l : string) :
  startsWith l ";" = true ->
  is_file_directive l = false ->
  endsWith l "ENDP" = false ->
  line_re_exec l = None ->
  each_line tmppath total_lines st l = st.
Proof.
  intros Hsemi Hfile Hendp Hre. unfold each_line.
  rewrite Hfile.
  destruct (in_file st); simpl; [|reflexivity].
  unfold is_segment_open, is_segment_close.
  rewrite (startsWith_semicolon_not_TEXT _ Hsemi), Hendp. simpl.
  now rewrite Hsemi, Hre.
Qed.

(** Outside the target file, lines that do not announce it change nothing
    the parser has collected, and leave it outside. *)
Lemma each_line_outside (st : State) (l : string) :
  in_file st = false ->
  is_file_directive l && names_target tmppath l = false ->
  in_file (each_line tmppath total_lines st l) = false /\
  line_content (each_line tmppath total_lines st l) = line_content st.
Proof.
  intros Hout Hl. unfold each_line.
  destruct (is_file_directive l); simpl in Hl.
  - rewrite Hl. simpl. auto.
  - rewrite Hout. simpl. auto.
Qed.

Lemma run_from_outside (ls : list string) (st : State) :
  in_file st = false ->
  Forall (fun l => is_file_directive l && names_target tmppath l = false) ls ->
  in_file (run_from tmppath total_lines st ls) = false /\
  line_content (run_from tmppath total_lines st ls) = line_content st.
Proof.
  revert st. induction ls as [|l ls IH]; simpl; intros st Hout Hall; [auto|].
  inversion Hall as [|? ? Hl Hls]; subst.
  destruct (each_line_outside st l Hout Hl) as [Hout' Hsame].
  destruct (IH _ Hout' Hls) as [Hf Hc]. split; congruence.
Qed.


(** Only a line-number directive gives the parser a current line. *)
Lemma each_line_keeps_sentinel (st : State) (l : string) :
  current_line st = 0 -> line_re_exec l = None ->
  current_line (each_line tmppath total_lines st l) = 0 /\
  line_content (each_line tmppath total_lines st l) = line_content st.
Proof.
  intros H0 Hre. unfold each_line. rewrite Hre.
  destruct (is_file_directive l).
  { destruct (names_target tmppath l); simpl; auto. }
  destruct (in_file st); simpl; [|auto].
  destruct (is_segment_open l); [simpl; auto|].
  destruct (is_segment_close l); [simpl; auto|].
  destruct (startsWith l ";"); [auto|].
  destruct (String.eqb (trim l) ""); [auto|].
  destruct (startsWith l TAB); simpl; [|auto].
  rewrite H0. simpl. auto.
Qed.

Lemma run_from_keeps_sentinel (ls : list string) (st : State) :
  current_line st = 0 ->
  Forall (fun l => line_re_exec l = None) ls ->
  current_line (run_from tmppath total_lines st ls) = 0 /\
  line_content (run_from tmppath total_lines st ls) = line_content st.
Proof.
  revert st. induction ls as [|l ls IH]; simpl; intros st H0 Hall; [auto|].
  inversion Hall as [|? ? Hl Hls]; subst.
  destruct (each_line_keeps_sentinel st l H0 Hl) as [H0' Hsame].
  destruct (IH _ H0' Hls) as [Hc Hm]. split; congruence.
Qed.

End RunFacts.

(** ** The whole pass *)

Section PipelineFacts.
Import Js JsFacts MapFacts.

Variable tmppath : string.
Variable doc : TextDocument.

Lemma parse_keys_in_range (total_lines : Z) (ls : list string) :
  Forall (fun k => 1 <= k <= total_lines) (keys (parse tmppath total_lines ls)).
Proof. apply inv_keys, Inv_run. Qed.

Lemma parse_keys_nodup (total_lines : Z) (ls : list string) :
  NoDup (keys (parse tmppath total_lines ls)).
Proof. eapply inv_nodup, Inv_run. Qed.

(** The assembler does not throw on a map whose keys are lines of the
    document. *)
Lemma assemble_returns (m : Map) :
  Forall (fun k => 1 <= k <= lineCount doc) (keys m) ->
  exists out, assemble doc m = Returned out.
Proof.
  intros Hk. unfold assemble.
  destruct m as [|[k asms] m']; [now exists []|].
  destruct (map_entries_total doc ((k, asms) :: m')) as [xs ->].
  - eapply Forall_impl; [|exact Hk]. simpl. lia.
  - inversion Hk; subst. lia.
  - eauto.
Qed.

(** Distinct keys come out strictly ascending. *)
Lemma assemble_ascending (m : Map) (out : list AssemblyListing) :
  NoDup (keys m) -> assemble doc m = Returned out ->
  StronglySorted line_lt out /\ NoDup (map line out).
Proof.
  intros Hnd H. apply assemble_Returned in H as (xs & Hxs & ->).
  assert (Hout : NoDup (map line (sort_by_line xs))).
  { eapply Permutation_NoDup.
    - apply Permutation_map, sort_by_line_perm.
    - now rewrite (map_entries_lines _ _ _ Hxs). }
  split; [|assumption].
  apply sorted_nodup_strict; [apply sort_by_line_sorted|assumption].
Qed.

(** Each listing of the result comes from an entry of the map. *)
Lemma assemble_In (m : Map) (out : list AssemblyListing) (a : AssemblyListing) :
  assemble doc m = Returned out -> In a out ->
  exists k asms, In (k, asms) m /\ listing_of doc (k, asms) = Returned a.
Proof.
  intros H Ha. apply assemble_Returned in H as (xs & Hxs & ->).
  apply (Permutation_in _ (Permutation_sym (sort_by_line_perm xs))) in Ha.
  apply map_entries_Returned in Hxs.
  induction Hxs as [|[k asms] b m xs Hb _ IH]; [contradiction|].
  destruct Ha as [->|Ha].
  - exists k, asms. split; [now left|assumption].
  - destruct (IH Ha) as (k' & asms' & Hin & Hl).
    exists k', asms'. split; [now right|assumption].
Qed.

(** Each entry of the map has its listing in the result. *)
Lemma assemble_entry (m : Map) (out : list AssemblyListing) (k : Z)
    (asms : list string) :
  assemble doc m = Returned out -> In (k, asms) m ->
  exists a, In a out /\ listing_of doc (k, asms) = Returned a.
Proof.
  intros H Hk. apply assemble_Returned in H as (xs & Hxs & ->).
  apply map_entries_Returned in Hxs.
  induction Hxs as [|e b m xs Hb _ IH]; [contradiction|].
  destruct Hk as [->|Hk].
  - exists b. split; [|assumption].
    apply (Permutation_in _ (sort_by_line_perm (b :: xs))). now left.
  - destruct (IH Hk) as (a & Ha & Hl). exists a. split; [|assumption].
    apply (Permutation_in _ (Permutation_sym (sort_by_line_perm xs))) in Ha.
    apply (Permutation_in _ (sort_by_line_perm (b :: xs))). now right.
Qed.

End PipelineFacts.

(** ** Line-number directives *)

Section DirectiveFacts.
Import Js JsFacts MapFacts.

Variable tmppath : string.
Variable total_lines : Z.

(** A line-number directive for a line beyond the document, or for a line
    that already has instructions, leaves the parser without a current line
    and the map as it was. *)
Lemma each_line_noise_directive (st : State) (l d : string) :
  Inv total_lines st ->
  line_re_exec l = Some d ->
  total_lines < parseInt d \/ has (line_content st) (parseInt d) = true ->
  current_line (each_line tmppath total_lines st l) = 0 /\
  line_content (each_line tmppath total_lines st l) = line_content st.
Proof.
  intros HI Hre Hnoise. unfold each_line.
  rewrite (line_re_not_file_directive _ _ Hre).
  destruct (in_file st) eqn:Ein; simpl.
  2:{ split; [now apply (inv_outside _ _ HI)|reflexivity]. }
  pose proof (line_re_startsWith_semicolon _ _ Hre) as Hsemi.
  unfold is_segment_open. rewrite (startsWith_semicolon_not_TEXT _ Hsemi). simpl.
  destruct (is_segment_close l); [simpl; auto|].
  rewrite Hsemi, Hre.
  assert (E : (parseInt d >? total_lines) || has (line_content st) (parseInt d) = true).
  { apply orb_true_iff. destruct Hnoise as [Hgt|Hhas]; [left|now right].
    rewrite Z.gtb_ltb. now apply Z.ltb_lt. }
  rewrite E. simpl. auto.
Qed.

End DirectiveFacts.

(** ** How the map grows, and the parser outside the target file *)

Section ParserGrowth.
Import Js MapFacts.

Variable tmppath : string.
Variable total_lines : Z.

Lemma set_fresh_snoc (m : Map) (k : Z) (v : list string) :
  get m k = None -> set m k v = (m ++ [(k, v)])%list.
Proof.
  induction m as [|[k' v'] m IH]; simpl; [reflexivity|].
  destruct (k' =? k); [discriminate|]. intros H. now rewrite (IH H).
Qed.

Lemma get_snoc_fresh (m : Map) (c k : Z) (v : list string) :
  get m c = None ->
  get (m ++ [(c, v)])%list k = if k =? c then Some v else get m k.
Proof.
  induction m as [|[k' v'] m IH]; simpl; intros Hc.
  - now rewrite (Z.eqb_sym c k).
  - destruct (Z.eqb_spec k' c) as [->|Hne]; [discriminate|].
    rewrite (IH Hc).
    destruct (Z.eqb_spec k' k) as [->|Hk]; [|reflexivity].
    destruct (Z.eqb_spec k c); [contradiction|reflexivity].
Qed.

Lemma get_push (m : Map) (c k : Z) (x : string) :
  get (push m c x) k =
    match get m k with
    | Some v => Some (if k =? c then v ++ [x] else v)%list
    | None => None
    end.
Proof.
  induction m as [|[k' v'] m IH]; simpl; [reflexivity|].
  destruct (Z.eqb_spec k' c) as [->|Hne]; simpl.
  - destruct (Z.eqb_spec c k) as [->|Hk]; [now rewrite Z.eqb_refl|].
    destruct (get m k); [|reflexivity].
    destruct (Z.eqb_spec k c); [congruence|reflexivity].
  - destruct (Z.eqb_spec k' k) as [->|Hk]; [|apply IH].
    destruct (Z.eqb_spec k c); [contradiction|reflexivity].
Qed.

Lemma In_push (m : Map) (c k : Z) (x : string) (v : list string) :
  In (k, v) (push m c x) ->
  In (k, v) m \/ exists v0, In (k, v0) m /\ v = (v0 ++ [x])%list.
Proof.
  induction m as [|[k' v'] m IH]; simpl; [tauto|].
  destruct (k' =? c); simpl.
  - intros [E|H]; [inversion E; subst; right; eauto|auto].
  - intros [E|H]; [auto|].
    destruct (IH H) as [H'|(v0 & H' & ->)]; [auto|right; eauto].
Qed.

(** The map after a line: as it was, or with the line as the first
    instruction of the current line, put last, or with the line added to the
    instructions the current line has. *)
Lemma each_line_content (st : State) (l : string) :
  line_content (each_line tmppath total_lines st l) = line_content st \/
  (in_file st = true /\ current_line st <> 0 /\ startsWith l TAB = true /\
   ((get (line_content st) (current_line st) = None /\
     line_content (each_line tmppath total_lines st l) =
       (line_content st ++ [(current_line st, [l])])%list) \/
    (exists v, get (line_content st) (current_line st) = Some v /\
     line_content (each_line tmppath total_lines st l) =
       push (line_content st) (current_line st) l))).
Proof.
  unfold each_line.
  destruct (is_file_directive l).
  { destruct (names_target tmppath l); simpl; auto. }
  destruct (in_file st); simpl; [|auto].
  destruct (is_segment_open l); [simpl; auto|].
  destruct (is_segment_close l); [simpl; auto|].
  destruct (startsWith l ";").
  { destruct (line_re_exec l); [|auto]. destruct (_ || _); simpl; auto. }
  destruct (String.eqb (trim l) ""); [auto|].
  destruct (startsWith l TAB); simpl; [|auto].
  destruct (Z.eqb_spec (current_line st) 0) as [E0|Hne]; simpl; [auto|].
  right. repeat split; auto.
  destruct (get (line_content st) (current_line st)) as [v|] eqn:Eget; simpl.
  - right. eauto.
  - left. split; [reflexivity|]. now apply set_fresh_snoc.
Qed.

Lemma grows_refl (m : Map) : grows m m.
Proof.
  split; [exists []; now rewrite app_nil_r|].
  intros k v H. exists []. now rewrite app_nil_r.
Qed.

Lemma grows_trans (m1 m2 m3 : Map) : grows m1 m2 -> grows m2 m3 -> grows m1 m3.
Proof.
  intros [[ks1 E1] G1] [[ks2 E2] G2]. split.
  - exists (ks1 ++ ks2)%list. now rewrite E2, E1, app_assoc.
  - intros k v H. destruct (G1 k v H) as [w1 H1].
    destruct (G2 k _ H1) as [w2 H2]. exists (w1 ++ w2)%list.
    now rewrite H2, app_assoc.
Qed.

Lemma each_line_grows (st : State) (l : string) :
  grows (line_content st) (line_content (each_line tmppath total_lines st l)).
Proof.
  destruct (each_line_content st l)
    as [->|(_ & _ & _ & [[Hnone ->]|(v & Hv & ->)])].
  - apply grows_refl.
  - split.
    + exists [current_line st]. unfold keys. now rewrite map_app.
    + intros k v H. rewrite (get_snoc_fresh _ _ _ _ Hnone).
      destruct (Z.eqb_spec k (current_line st)) as [->|_]; [congruence|].
      exists []. now rewrite app_nil_r.
  - split.
    + exists []. now rewrite keys_push, app_nil_r.
    + intros k v' H. rewrite get_push, H.
      destruct (k =? current_line st); [eauto|].
      exists []. now rewrite app_nil_r.
Qed.

Lemma run_from_grows (ls : list string) (st : State) :
  grows (line_content st) (line_content (run_from tmppath total_lines st ls)).
Proof.
  revert st. induction ls as [|l ls IH]; simpl; intros st.
  - apply grows_refl.
  - eapply grows_trans; [apply each_line_grows|apply IH].
Qed.

(** Outside the target file the parser is in one state but for the map. *)
Lemma each_line_outside_in_text (st : State) (l : string) :
  (in_file st = false -> in_text st = false) ->
  in_file (each_line tmppath total_lines st l) = false ->
  in_text (each_line tmppath total_lines st l) = false.
Proof.
  unfold each_line. intros Hst.
  destruct (is_file_directive l).
  { destruct (names_target tmppath l); simpl; auto. discriminate. }
  destruct (in_file st) eqn:Ein; simpl; [|auto].
  destruct (is_segment_open l); [simpl; congruence|].
  destruct (is_segment_close l); [simpl; auto|].
  destruct (startsWith l ";").
  { destruct (line_re_exec l); [|congruence].
    destruct (_ || _); simpl; congruence. }
  destruct (String.eqb (trim l) ""); [congruence|].
  destruct (startsWith l TAB); simpl; [|congruence].
  destruct (negb _); [|congruence].
  destruct (get _ _); simpl; congruence.
Qed.

Lemma run_outside_in_text (ls : list string) :
  in_file (run tmppath total_lines ls) = false ->
  in_text (run tmppath total_lines ls) = false.
Proof.
  induction ls as [|l ls IH] using rev_ind; [reflexivity|].
  rewrite run_snoc. now apply each_line_outside_in_text.
Qed.

Lemma each_line_idle (st : State) (l : string) :
  in_file st = false -> in_text st = false -> current_line st = 0 ->
  not_target tmppath l ->
  each_line tmppath total_lines st l = st.
Proof.
  destruct st as [f t c m]. simpl. intros -> -> -> Hl.
  unfold not_target in Hl. unfold each_line. simpl.
  destruct (is_file_directive l); simpl in Hl; [now rewrite Hl|reflexivity].
Qed.

Lemma run_from_idle (ls : list string) (st : State) :
  in_file st = false -> in_text st = false -> current_line st = 0 ->
  Forall (not_target tmppath) ls ->
  run_from tmppath total_lines st ls = st.
Proof.
  intros Hf Ht Hc Hall. induction Hall as [|l ls Hl _ IH]; simpl; [reflexivity|].
  now rewrite each_line_idle.
Qed.

End ParserGrowth.


(** ** [in_text] is written and never read *)

Section InTextFacts.
Import Js JsFacts MapFacts.

Variable tmppath : string.
Variable total_lines : Z.

Lemma same_but_in_text_refl (st : State) : same_but_in_text st st.
Proof. repeat split. Qed.










End InTextFacts.

(** ** The parser on a document that changes *)

Section LiveFacts.
Import Js JsFacts MapFacts.

Variable tmppath : string.

(** [Inv n] is kept by a step that reads a line count of at most [n]. *)
Lemma Inv_each_line_le (n total_lines : Z) (st : State) (l : string) :
  total_lines <= n ->
  Inv n st -> Inv n (each_line tmppath total_lines st l).
Proof.
  intros Hle H. pose proof H as [Hnd Hk Hc Ho]. unfold each_line.
  destruct (is_file_directive l).
  { destruct (names_target tmppath l); constructor; simpl; auto; discriminate. }
  destruct (in_file st) eqn:Ein; simpl; [|assumption].
  destruct (is_segment_open l).
  { constructor; simpl; auto; discriminate. }
  destruct (is_segment_close l).
  { constructor; simpl; auto. }
  destruct (startsWith l ";").
  { destruct (line_re_exec l) as [d|] eqn:Ere; [|assumption].
    destruct (_ || _) eqn:Eskip; constructor; simpl; auto; try discriminate.
    apply orb_false_elim in Eskip as [Hgt _].
    pose proof (line_re_parseInt_nonneg _ _ Ere).
    rewrite Z.gtb_ltb in Hgt. apply Z.ltb_ge in Hgt. lia. }
  destruct (String.eqb (trim l) ""); [assumption|].
  destruct (startsWith l TAB); simpl.
  2:{ constructor; simpl; auto. }
  destruct (Z.eqb_spec (current_line st) 0) as [E0|Hne]; simpl; [assumption|].
  destruct Hc as [Hc|Hc]; [contradiction|].
  destruct (get (line_content st) (current_line st)) eqn:Eget.
  - constructor; simpl; auto; try discriminate; now rewrite keys_push.
  - constructor; simpl; auto; try discriminate;
      rewrite keys_set_fresh by assumption.
    + apply NoDup_app; [assumption|repeat constructor; simpl; tauto|].
      intros x Hx [<-|[]]. now apply get_None_iff in Eget.
    + apply Forall_app. split; [assumption|now constructor].
Qed.

Lemma Inv_fold_live (n : Z) (stream : list (TextDocument * string)) (st : State) :
  Forall (fun ev => lineCount (fst ev) <= n) stream ->
  Inv n st -> Inv n (fold_left (each_line_live tmppath) stream st).
Proof.
  intros Hall. revert st. induction Hall as [|ev stream Hev _ IH]; simpl;
    intros st H; [assumption|].
  apply IH. now apply Inv_each_line_le.
Qed.

Lemma Inv_run_live (n : Z) (stream : list (TextDocument * string)) :
  Forall (fun ev => lineCount (fst ev) <= n) stream ->
  Inv n (run_live tmppath stream).
Proof. intros H. apply Inv_fold_live; [assumption|apply Inv_initial]. Qed.

(** The line counts read along a stream are bounded. *)
Lemma stream_bound (stream : list (TextDocument * string)) :
  exists n, Forall (fun ev => lineCount (fst ev) <= n) stream.
Proof.
  induction stream as [|ev stream [n IH]]; [exists 0; constructor|].
  exists (Z.max n (lineCount (fst ev))). constructor; [lia|].
  eapply Forall_impl; [|exact IH]. simpl. lia.
Qed.

(** Whatever the document does, the keys are distinct and positive. *)
Lemma run_live_keys (stream : list (TextDocument * string)) :
  NoDup (keys (line_content (run_live tmppath stream))) /\
  Forall (fun k => 1 <= k) (keys (line_content (run_live tmppath stream))).
Proof.
  destruct (stream_bound stream) as [n Hn].
  pose proof (Inv_run_live n stream Hn) as [Hnd Hk _ _].
  split; [assumption|]. eapply Forall_impl; [|exact Hk]. simpl. lia.
Qed.

Lemma run_live_keys_in_range (stream : list (TextDocument * string))
    (doc : TextDocument) :
  not_shrunk stream doc ->
  Forall (fun k => 1 <= k <= lineCount doc)
    (keys (line_content (run_live tmppath stream))).
Proof. intros H. apply inv_keys, Inv_run_live, H. Qed.

Lemma fold_live_app (xs ys : list (TextDocument * string)) (st : State) :
  fold_left (each_line_live tmppath) (xs ++ ys) st =
  fold_left (each_line_live tmppath) ys
    (fold_left (each_line_live tmppath) xs st).
Proof. apply fold_left_app. Qed.

Lemma run_live_snoc (stream : list (TextDocument * string))
    (ev : TextDocument * string) :
  run_live tmppath (stream ++ [ev]) =
  each_line tmppath (lineCount (fst ev)) (run_live tmppath stream) (snd ev).
Proof. unfold run_live. now rewrite fold_live_app. Qed.

(** While the document stays as it is, the parser reads one line count. *)
Lemma run_live_unchanged (doc : TextDocument) (ls : list string) :
  run_live tmppath (unchanged doc ls) = run tmppath (lineCount doc) ls.
Proof.
  unfold run_live, run, run_from, unchanged. generalize initial_state.
  induction ls as [|l ls IH]; simpl; intros st; [reflexivity|apply IH].
Qed.

(** Without a directive that names the target, nothing is collected. *)
Lemma run_live_outside (stream : list (TextDocument * string)) :
  Forall (fun l => is_file_directive l && names_target tmppath l = false)
    (map snd stream) ->
  line_content (run_live tmppath stream) = [].
Proof.
  intros Hall.
  assert (G : forall st, in_file st = false ->
            in_file (fold_left (each_line_live tmppath) stream st) = false /\
            line_content (fold_left (each_line_live tmppath) stream st) =
              line_content st).
  { induction stream as [|ev stream IH]; simpl; intros st Hout; [auto|].
    inversion Hall as [|? ? Hl Hls]; subst.
    destruct (each_line_outside tmppath (lineCount (fst ev)) st (snd ev) Hout Hl)
      as [Hout' Hsame].
    destruct (IH Hls _ Hout') as [Hf Hc]. split; [assumption|].
    unfold each_line_live at 2. congruence. }
  unfold run_live. now destruct (G initial_state eq_refl) as [_ ->].
Qed.

(** The instructions of every line, as the parser holds them. *)
Lemma run_live_values (stream : list (TextDocument * string))
    (k : Z) (v : list string) :
  In (k, v) (line_content (run_live tmppath stream)) ->
  v <> [] /\ Forall (fun l => startsWith l TAB = true) v.
Proof.
  revert k v. induction stream as [|ev stream IH] using rev_ind; intros k v;
    [contradiction|].
  rewrite run_live_snoc.
  destruct (each_line_content tmppath (lineCount (fst ev))
              (run_live tmppath stream) (snd ev))
    as [->|(_ & _ & Htab & [[_ ->]|(v0 & _ & ->)])].
  - apply IH.
  - intros H. apply in_app_or in H as [H|[E|[]]]; [exact (IH _ _ H)|].
    inversion E; subst. split; [discriminate|now repeat constructor].
  - intros H. apply In_push in H as [H|(v1 & H & ->)]; [exact (IH _ _ H)|].
    destruct (IH _ _ H) as (Hne & Ht). split.
    + destruct v1; discriminate.
    + apply Forall_app. split; [assumption|now repeat constructor].
Qed.

Variable doc : TextDocument.

(** The pass returns as soon as the document has a line when the result is
    built. *)
Lemma _decorateMSVC_returns (stream : list (TextDocument * string)) :
  1 <= lineCount doc ->
  exists out, _decorateMSVC tmppath stream doc = Returned out.
Proof.
  intros Hn. unfold _decorateMSVC, assemble.
  destruct (map_entries_total doc (line_content (run_live tmppath stream)))
    as [xs ->]; [apply run_live_keys|assumption|eauto].
Qed.

Lemma _decorateMSVC_unchanged (ls : list string) :
  _decorateMSVC tmppath (unchanged doc ls) doc =
  assemble doc (parse tmppath (lineCount doc) ls).
Proof. unfold _decorateMSVC, parse. now rewrite run_live_unchanged. Qed.

End LiveFacts.
(** * The claims *)

(** The pass on [sample_listing]: the header's function is left out, the
    second block for line 2 is dropped, and the result is ordered by line. *)
Example sample_listing_parsed :
  parse ".asme-t.c" 3 sample_listing =
    [(2, [instr "mov eax, 1"]); (1, [instr "push ebp"]); (3, [instr "ret 0"])].
Proof. reflexivity. Qed.

Example sample_listing_decorated :
  _decorateMSVC ".asme-t.c" (unchanged sample_doc sample_listing) sample_doc =
  Returned
    [ {| line := 1; file := "t.c"; assembly := instr "push ebp";
         code := "int f()"; color := Some "#decbe4" |};
      {| line := 2; file := "t.c"; assembly := instr "mov eax, 1";
         code := "{ return 1;"; color := Some "#e5d8bd" |};
      {| line := 3; file := "t.c"; assembly := instr "ret 0";
         code := "}"; color := Some "#b3cde3" |} ].
Proof. reflexivity. Qed.

(** The same listing, read while the document has its three lines; when the
    result is built the document has one line left, and every listing gets
    the text of that line. *)
Example sample_listing_document_shrunk :
  _decorateMSVC ".asme-t.c" (unchanged sample_doc sample_listing)
    {| fileName := "t.c"; text_lines := ["int f() { return 1; }"] |} =
  Returned
    [ {| line := 1; file := "t.c"; assembly := instr "push ebp";
         code := "int f() { return 1; }"; color := Some "#decbe4" |};
      {| line := 2; file := "t.c"; assembly := instr "mov eax, 1";
         code := "int f() { return 1; }"; color := Some "#e5d8bd" |};
      {| line := 3; file := "t.c"; assembly := instr "ret 0";
         code := "int f() { return 1; }"; color := Some "#b3cde3" |} ].
Proof. reflexivity. Qed.

(** ** C1: segment gating *)




(** ** C2: the segment-close marker *)

(** C2, as stated, fails: a procedure-end line met inside the target file
    also leaves the target file, [in_file] becomes false. *)
Lemma segment_close_counterexample :
  in_file (run ".asme-t.c" 3
             ["; File .asme-t.c"; "_TEXT" ++ TAB ++ "SEGMENT"; "; 1 :"; instr "ret"]) = true /\
  is_segment_close ("_f" ++ TAB ++ "ENDP") = true /\
  in_file (each_line ".asme-t.c" 3
             (run ".asme-t.c" 3
                ["; File .asme-t.c"; "_TEXT" ++ TAB ++ "SEGMENT"; "; 1 :"; instr "ret"])
             ("_f" ++ TAB ++ "ENDP")) = false.
Proof. vm_compute. auto. Qed.

(** C2 (amended): in a state with [in_file] true, a segment-close line (one
    that is not a file-boundary directive, which is tested first) sets
    [in_file] and [in_text] to false and [current_line] to [0]; the mapping is
    unchanged. *)
Theorem segment_close_resets
    (tmppath : string) (total_lines : Z) (st : State) (l : string) :
  in_file st = true ->
  is_file_directive l = false ->
  is_segment_close l = true ->
  each_line tmppath total_lines st l =
    {| in_file := false; in_text := false; current_line := 0;
       line_content := line_content st |}.
Proof.
  intros Hin Hfile Hclose. unfold each_line.
  now rewrite Hfile, Hin, (segment_close_not_open _ Hclose), Hclose.
Qed.

Lemma segment_close_resets_witness :
  each_line ".asme-t.c" 3
    {| in_file := true; in_text := true; current_line := 1;
       line_content := [(1, [instr "ret"])] |}
    ("_f" ++ TAB ++ "ENDP") =
  {| in_file := false; in_text := false; current_line := 0;
     line_content := [(1, [instr "ret"])] |}.
Proof.
  apply (segment_close_resets ".asme-t.c" 3
           {| in_file := true; in_text := true; current_line := 1;
              line_content := [(1, [instr "ret"])] |}
           ("_f" ++ TAB ++ "ENDP")); reflexivity.
Defined.

(** ** C3: malformed directives *)

(** C3, as stated, fails: a comment in the shape of a line-number directive
    whose number is no integer does not match the pattern and is passed over;
    the pass returns the listing it has built, instructions after the comment
    included. *)
Lemma malformed_directive_counterexample :
  line_re_exec "; x :" = None /\
  _decorateMSVC ".asme-t.c"
    (unchanged sample_doc
       ["; File .asme-t.c"; "; 1 :"; instr "ret"; "; x :"; instr "nop"])
    sample_doc =
  Returned
    [ {| line := 1; file := "t.c";
         assembly := instr "ret" ++ CRLF ++ instr "nop";
         code := "int f()"; color := Some "#decbe4" |} ].
Proof. vm_compute. auto. Qed.

(** C3 (amended): no line-number directive has an integer that fails to
    parse, the pattern captures a run of one digit or more and nothing else.
    A line that begins with [;] and does not match the pattern (and is neither
    a file-boundary directive nor ends with [ENDP]) does not abort the parse:
    the callback leaves the state as it is, the pass has the outcome it has
    for the listing without the line, and it returns a result whenever the
    document has a line when the result is built. *)
Theorem malformed_directive_is_skipped
    (tmppath : string) (pre post : list (TextDocument * string))
    (d doc : TextDocument) (l : string) :
  Js.startsWith l ";" = true ->
  is_file_directive l = false ->
  Js.endsWith l "ENDP" = false ->
  line_re_exec l = None ->
  (forall l' n, line_re_exec l' = Some n ->
                n <> "" /\ Forall (fun c => Js.is_digit c = true) (Js.chars n)) /\
  (forall total_lines st, each_line tmppath total_lines st l = st) /\
  _decorateMSVC tmppath (pre ++ (d, l) :: post)%list doc =
    _decorateMSVC tmppath (pre ++ post)%list doc /\
  (1 <= lineCount doc ->
   exists out, _decorateMSVC tmppath (pre ++ (d, l) :: post)%list doc = Returned out).
Proof.
  intros Hsemi Hfile Hendp Hre.
  assert (Hskip : forall total_lines st, each_line tmppath total_lines st l = st).
  { intros total_lines st. now apply each_line_plain_comment. }
  split; [|split; [exact Hskip|split]].
  - intros l' n Hn. apply line_re_exec_Some in Hn as (r0 & _ & Hne & ->).
    split.
    + destruct (Js.take_while Js.is_digit (Js.drop_while Js.is_space r0));
        [contradiction|discriminate].
    + unfold Js.chars. rewrite list_ascii_of_string_of_list_ascii.
      apply JsFacts.take_while_all.
  - unfold _decorateMSVC, run_live. rewrite !fold_live_app. simpl.
    unfold each_line_live at 2. simpl. now rewrite Hskip.
  - apply _decorateMSVC_returns.
Qed.

Lemma malformed_directive_is_skipped_witness :
  (forall l' n, line_re_exec l' = Some n ->
                n <> "" /\ Forall (fun c => Js.is_digit c = true) (Js.chars n)) /\
  (forall total_lines st, each_line ".asme-t.c" total_lines st "; x :" = st) /\
  _decorateMSVC ".asme-t.c"
    (unchanged sample_doc ["; File .asme-t.c"; "; 1 :"; instr "ret"]
       ++ (sample_doc, "; x :") :: unchanged sample_doc [instr "nop"])%list
    sample_doc =
  _decorateMSVC ".asme-t.c"
    (unchanged sample_doc ["; File .asme-t.c"; "; 1 :"; instr "ret"]
       ++ unchanged sample_doc [instr "nop"])%list
    sample_doc /\
  (1 <= lineCount sample_doc ->
   exists out,
     _decorateMSVC ".asme-t.c"
       (unchanged sample_doc ["; File .asme-t.c"; "; 1 :"; instr "ret"]
          ++ (sample_doc, "; x :") :: unchanged sample_doc [instr "nop"])%list
       sample_doc = Returned out).
Proof.
  apply (malformed_directive_is_skipped ".asme-t.c"
           (unchanged sample_doc ["; File .asme-t.c"; "; 1 :"; instr "ret"])
           (unchanged sample_doc [instr "nop"]) sample_doc sample_doc "; x :");
    reflexivity.
Defined.

(** ** C4: line-number directives treated as noise *)

(** C4: after any listing, a line-number directive whose number exceeds
    [total_lines] or already has an entry leaves [current_line] at the
    sentinel [0], and the lines that follow, up to the next line-number
    directive, add nothing to the mapping.  The examples, which are lines
    from inside the target file: from a state with [in_file] true and an empty
    mapping, the lines ["; 5 :"], ["\tmov eax, 1"], ["; 5 :"],
    ["\tmov eax, 2"] with [total_lines = 10] yield [5 -> ["\tmov eax, 1"]]
    only; with [total_lines = 3], ["; 99 :"] followed by ["\tnop"] yields
    the empty mapping. *)
Theorem noise_directive_discards
    (tmppath : string) (total_lines : Z) :
  (forall (pre rest : list string) (l d : string),
      line_re_exec l = Some d ->
      total_lines < Js.parseInt d \/
        Js.has (parse tmppath total_lines pre) (Js.parseInt d) = true ->
      Forall (fun x => line_re_exec x = None) rest ->
      current_line (run tmppath total_lines (pre ++ [l])%list) = 0 /\
      current_line (run tmppath total_lines (pre ++ l :: rest)%list) = 0 /\
      parse tmppath total_lines (pre ++ l :: rest)%list = parse tmppath total_lines pre) /\
  (forall (b : bool) (c : Z),
      line_content
        (run_from tmppath 10
           {| in_file := true; in_text := b; current_line := c; line_content := [] |}
           ["; 5 :"; instr "mov eax, 1"; "; 5 :"; instr "mov eax, 2"]) =
      [(5, [instr "mov eax, 1"])]) /\
  parse tmppath 3 ["; 99 :"; instr "nop"] = [] /\
  (forall (b : bool) (c : Z),
      line_content
        (run_from tmppath 3
           {| in_file := true; in_text := b; current_line := c; line_content := [] |}
           ["; 99 :"; instr "nop"]) = []).
Proof.
  split; [|repeat split; intros; reflexivity].
  intros pre rest l d Hre Hnoise Hrest.
  pose proof (Inv_run tmppath total_lines pre) as HI.
  destruct (each_line_noise_directive tmppath total_lines _ l d HI Hre Hnoise)
    as [H0 Hsame].
  rewrite run_snoc. split; [assumption|].
  assert (E : run tmppath total_lines (pre ++ l :: rest)%list =
              run_from tmppath total_lines
                (each_line tmppath total_lines (run tmppath total_lines pre) l) rest).
  { unfold run. now rewrite run_from_app. }
  destruct (run_from_keeps_sentinel tmppath total_lines rest _ H0 Hrest)
    as [Hc Hm].
  unfold parse. rewrite E. split; congruence.
Qed.

Lemma noise_directive_discards_witness :
  current_line
    (run ".asme-t.c" 10 (["; File .asme-t.c"; "; 5 :"; instr "mov eax, 1"] ++ ["; 5 :"])%list) = 0 /\
  current_line
    (run ".asme-t.c" 10
       (["; File .asme-t.c"; "; 5 :"; instr "mov eax, 1"] ++ "; 5 :" :: [instr "mov eax, 2"])%list) = 0 /\
  parse ".asme-t.c" 10
    (["; File .asme-t.c"; "; 5 :"; instr "mov eax, 1"] ++ "; 5 :" :: [instr "mov eax, 2"])%list =
  parse ".asme-t.c" 10 ["; File .asme-t.c"; "; 5 :"; instr "mov eax, 1"].
Proof.
  apply (proj1 (noise_directive_discards ".asme-t.c" 10)
           ["; File .asme-t.c"; "; 5 :"; instr "mov eax, 1"] [instr "mov eax, 2"]
           "; 5 :" "5").
  - reflexivity.
  - right. reflexivity.
  - repeat constructor.
Defined.

(** ** C5: unique, strictly ascending lines *)

(** C5: for every map (its keys are distinct, as in any [Map]) and every
    document, the sequence the assembler returns is strictly ascending in
    [line], and no two of its entries have the same [line]. *)
Theorem assemble_strictly_ascending
    (doc : TextDocument) (m : Js.Map) (out : list AssemblyListing) :
  NoDup (Js.keys m) ->
  assemble doc m = Returned out ->
  StronglySorted line_lt out /\ NoDup (map line out).
Proof. apply assemble_ascending. Qed.

Lemma assemble_strictly_ascending_witness :
  StronglySorted line_lt
    [ {| line := 1; file := "t.c"; assembly := instr "push ebp";
         code := "int f()"; color := Some "#decbe4" |};
      {| line := 2; file := "t.c"; assembly := instr "mov eax, 1" ++ CRLF ++ instr "ret";
         code := "{ return 1;"; color := Some "#e5d8bd" |} ] /\
  NoDup (map line
    [ {| line := 1; file := "t.c"; assembly := instr "push ebp";
         code := "int f()"; color := Some "#decbe4" |};
      {| line := 2; file := "t.c"; assembly := instr "mov eax, 1" ++ CRLF ++ instr "ret";
         code := "{ return 1;"; color := Some "#e5d8bd" |} ]).
Proof.
  apply (assemble_strictly_ascending sample_doc
           [(2, [instr "mov eax, 1"; instr "ret"]); (1, [instr "push ebp"])]).
  - simpl. repeat constructor; simpl; intuition discriminate.
  - reflexivity.
Defined.

(** The same for the whole pass, whatever the document did meanwhile. *)
Lemma _decorateMSVC_strictly_ascending
    (tmppath : string) (stream : list (TextDocument * string))
    (doc : TextDocument) (out : list AssemblyListing) :
  _decorateMSVC tmppath stream doc = Returned out ->
  StronglySorted line_lt out /\ NoDup (map line out).
Proof.
  apply assemble_ascending, run_live_keys.
Qed.

(** ** C6: nothing for the target file *)

(** C6: a listing that is empty, or none of whose lines is a file-boundary
    directive naming [tmppath], parses to the empty mapping, and the pass
    returns the empty sequence; it does not throw.  This holds whatever line
    count the parser reads, on a document that changes as well. *)
Theorem no_target_directive_empty
    (tmppath : string) (total_lines : Z)
    (stream : list (TextDocument * string)) (doc : TextDocument) :
  Forall (fun l => is_file_directive l && names_target tmppath l = false)
    (map snd stream) ->
  parse tmppath total_lines (map snd stream) = [] /\
  _decorateMSVC tmppath stream doc = Returned [].
Proof.
  intros Hls. split.
  - unfold parse, run.
    now destruct (run_from_outside tmppath total_lines (map snd stream)
                    initial_state eq_refl Hls) as [_ ->].
  - unfold _decorateMSVC. now rewrite (run_live_outside tmppath stream Hls).
Qed.

Lemma no_target_directive_empty_witness :
  parse ".asme-t.c" (lineCount sample_doc)
    (map snd
       (unchanged sample_doc
          ["; File c:\src\other.h"; "; 1 :"; instr "mov eax, 1"])) = [] /\
  _decorateMSVC ".asme-t.c"
    (unchanged sample_doc
       ["; File c:\src\other.h"; "; 1 :"; instr "mov eax, 1"])
    sample_doc = Returned [].
Proof.
  apply (no_target_directive_empty ".asme-t.c" (lineCount sample_doc)
           (unchanged sample_doc
              ["; File c:\src\other.h"; "; 1 :"; instr "mov eax, 1"])
           sample_doc).
  repeat constructor.
Defined.

(** The empty listing is the instance with no line at all. *)
Example empty_listing_empty (tmppath : string) (doc : TextDocument) :
  _decorateMSVC tmppath [] doc = Returned [].
Proof. reflexivity. Qed.

(** ** C7: the clamped source line *)

(** C7: for a document with at least one line and a map whose keys are
    positive line numbers, the assembler returns; the listing of every entry
    [(k, asms)] has for [code] the text at index [min k lineCount - 1], and
    that index lies within the document. *)
Theorem assemble_code_clamped
    (doc : TextDocument) (m : Js.Map) (k : Z) (asms : list string) :
  1 <= lineCount doc ->
  Forall (fun k' => 1 <= k') (Js.keys m) ->
  In (k, asms) m ->
  exists out a,
    assemble doc m = Returned out /\
    In a out /\ line a = k /\
    0 <= Z.min k (lineCount doc) - 1 < lineCount doc /\
    nth_error (text_lines doc) (Z.to_nat (Z.min k (lineCount doc) - 1)) =
      Some (code a).
Proof.
  intros Hn Hkeys Hk.
  destruct (map_entries_total doc m Hkeys Hn) as [xs Hxs].
  assert (Hout : assemble doc m = Returned (sort_by_line xs)).
  { unfold assemble. now rewrite Hxs. }
  destruct (assemble_entry doc m _ k asms Hout Hk) as (a & Ha & Hl).
  apply listing_of_Returned in Hl as (Hline & _ & _ & Hcode & _).
  assert (Hk1 : 1 <= k).
  { rewrite Forall_forall in Hkeys. apply Hkeys.
    change k with (fst (k, asms)). now apply in_map. }
  exists (sort_by_line xs), a. repeat split; try assumption; try lia.
  unfold lineAt in Hcode.
  destruct ((Z.min k (lineCount doc) - 1 <? 0) ||
            (lineCount doc <=? Z.min k (lineCount doc) - 1));
    [discriminate|assumption].
Qed.

Lemma assemble_code_clamped_witness :
  exists out a,
    assemble sample_doc [(99, [instr "ret"])] = Returned out /\
    In a out /\ line a = 99 /\
    0 <= Z.min 99 (lineCount sample_doc) - 1 < lineCount sample_doc /\
    nth_error (text_lines sample_doc)
      (Z.to_nat (Z.min 99 (lineCount sample_doc) - 1)) = Some (code a).
Proof.
  apply (assemble_code_clamped sample_doc [(99, [instr "ret"])] 99 [instr "ret"]).
  - vm_compute. discriminate.
  - repeat constructor. simpl. lia.
  - simpl. auto.
Defined.

(** ** C8: the colour of a line *)

(** C8: for every entry of the map, for a line [L] (a non-negative number),
    the result of the assembler has a listing for [L], and every listing for
    [L] in the result has the colour [COLORS[(L * 11) mod P]], [P] the size of
    the palette, whatever other lines the map holds.  The result has no
    listing for a line that is not a key of the map. *)
Theorem assemble_color_of_line
    (doc : TextDocument) (m : Js.Map) (out : list AssemblyListing) :
  assemble doc m = Returned out ->
  (forall L asms,
      In (L, asms) m -> 0 <= L ->
      (exists a, In a out /\ line a = L /\ assembly a = Js.join CRLF asms) /\
      (forall a, In a out -> line a = L ->
                 color a =
                   nth_error COLORS
                     (Z.to_nat ((L * 11) mod Z.of_nat (List.length COLORS))))) /\
  (forall a, In a out -> In (line a) (Js.keys m)).
Proof.
  intros Hout.
  assert (Hcol : forall a, In a out -> 0 <= line a ->
            color a = nth_error COLORS (Z.to_nat ((line a * 11) mod 8))).
  { intros a Ha Hpos.
    destruct (assemble_In doc m out a Hout Ha) as (k & asms & _ & Hl).
    apply listing_of_Returned in Hl as (<- & _ & _ & _ & ->).
    rewrite Z.rem_mod_nonneg by (simpl; lia).
    unfold Js.index.
    destruct (Z.ltb_spec ((line a * 11) mod 8) 0) as [Hneg|_]; [|reflexivity].
    pose proof (Z.mod_pos_bound (line a * 11) 8). lia. }
  split.
  - intros L asms Hin HL. split.
    + destruct (assemble_entry doc m out L asms Hout Hin) as (a & Ha & Hl).
      apply listing_of_Returned in Hl as (Hline & _ & Hasm & _).
      exists a. auto.
    + intros a Ha <-. now apply Hcol.
  - intros a Ha.
    destruct (assemble_In doc m out a Hout Ha) as (k & asms & Hin & Hl).
    apply listing_of_Returned in Hl as (-> & _).
    change k with (fst (k, asms)). now apply in_map.
Qed.

Lemma assemble_color_of_line_witness :
  (exists a,
     In a
       [ {| line := 1; file := "t.c"; assembly := instr "push ebp";
            code := "int f()"; color := Some "#decbe4" |};
         {| line := 2; file := "t.c"; assembly := instr "ret";
            code := "{ return 1;"; color := Some "#e5d8bd" |} ] /\
     line a = 2 /\ assembly a = Js.join CRLF [instr "ret"]) /\
  (forall a,
     In a
       [ {| line := 1; file := "t.c"; assembly := instr "push ebp";
            code := "int f()"; color := Some "#decbe4" |};
         {| line := 2; file := "t.c"; assembly := instr "ret";
            code := "{ return 1;"; color := Some "#e5d8bd" |} ] ->
     line a = 2 ->
     color a =
       nth_error COLORS (Z.to_nat ((2 * 11) mod Z.of_nat (List.length COLORS)))).
Proof.
  apply (proj1 (assemble_color_of_line sample_doc
                  [(2, [instr "ret"]); (1, [instr "push ebp"])]
                  [ {| line := 1; file := "t.c"; assembly := instr "push ebp";
                       code := "int f()"; color := Some "#decbe4" |};
                    {| line := 2; file := "t.c"; assembly := instr "ret";
                       code := "{ return 1;"; color := Some "#e5d8bd" |} ]
                  eq_refl) 2 [instr "ret"]).
  - simpl. auto.
  - lia.
Defined.

(** ** C9: comments that are no directive *)

(** C9, as stated, fails: a comment that ends with [ENDP] is taken for a
    procedure end, which is tested before the comment branch. *)
Lemma plain_comment_counterexample :
  in_file (run ".asme-t.c" 3 ["; File .asme-t.c"; "; 1 :"]) = true /\
  Js.startsWith "; f ENDP" ";" = true /\
  is_file_directive "; f ENDP" = false /\
  line_re_exec "; f ENDP" = None /\
  each_line ".asme-t.c" 3 (run ".asme-t.c" 3 ["; File .asme-t.c"; "; 1 :"]) "; f ENDP"
    <> run ".asme-t.c" 3 ["; File .asme-t.c"; "; 1 :"].
Proof. vm_compute. repeat split. discriminate. Qed.

(** C9 (amended): in a state with [in_file] true, a line that begins with
    [;], is not a file-boundary directive, does not match the line-number
    pattern and does not end with [ENDP] leaves the whole state unchanged. *)
Theorem plain_comment_keeps_state
    (tmppath : string) (total_lines : Z) (st : State) (l : string) :
  in_file st = true ->
  Js.startsWith l ";" = true ->
  is_file_directive l = false ->
  line_re_exec l = None ->
  Js.endsWith l "ENDP" = false ->
  each_line tmppath total_lines st l = st.
Proof.
  intros _ Hsemi Hfile Hre Hendp. now apply each_line_plain_comment.
Qed.

Lemma plain_comment_keeps_state_witness :
  each_line ".asme-t.c" 3
    {| in_file := true; in_text := true; current_line := 1;
       line_content := [(1, [instr "ret"])] |}
    "; Function compile flags: /Odtp" =
  {| in_file := true; in_text := true; current_line := 1;
     line_content := [(1, [instr "ret"])] |}.
Proof.
  apply (plain_comment_keeps_state ".asme-t.c" 3
           {| in_file := true; in_text := true; current_line := 1;
              line_content := [(1, [instr "ret"])] |}
           "; Function compile flags: /Odtp"); reflexivity.
Defined.

(** ** C10: the keys of the mapping *)

(** C10: every key of the mapping the parser returns lies within
    [1 .. total_lines]; [0], the sentinel, is never a key, whatever the
    listing says about line 0. *)
Theorem parse_keys_are_source_lines
    (tmppath : string) (total_lines : Z) (ls : list string) :
  (forall k, In k (Js.keys (parse tmppath total_lines ls)) ->
             1 <= k <= total_lines) /\
  Js.has (parse tmppath total_lines ls) 0 = false.
Proof.
  pose proof (parse_keys_in_range tmppath total_lines ls) as Hall.
  rewrite Forall_forall in Hall. split; [exact Hall|].
  destruct (Js.has (parse tmppath total_lines ls) 0) eqn:E; [|reflexivity].
  apply MapFacts.has_true_iff, Hall in E. lia.
Qed.

Lemma parse_keys_are_source_lines_witness :
  Js.keys (parse ".asme-t.c" 3
             ["; File .asme-t.c"; "; 0 :"; instr "nop"; "; 2 :"; instr "ret"]) = [2] /\
  1 <= 2 <= 3.
Proof.
  split; [reflexivity|].
  apply (proj1 (parse_keys_are_source_lines ".asme-t.c" 3
                  ["; File .asme-t.c"; "; 0 :"; instr "nop"; "; 2 :"; instr "ret"]) 2).
  vm_compute. auto.
Defined.

(** * Further properties of the source *)

(** ** Arrays: [findIndex] and [splice] *)

Section ArrayFacts.

Context {A : Type}.

Lemma Subseq_refl (xs : list A) : Subseq xs xs.
Proof. induction xs; constructor; assumption. Qed.

Lemma Subseq_trans (xs ys zs : list A) :
  Subseq xs ys -> Subseq ys zs -> Subseq xs zs.
Proof.
  intros Hxy Hyz. revert xs Hxy.
  induction Hyz as [|y ys zs _ IH|z ys zs _ IH]; intros xs Hxy.
  - assumption.
  - inversion Hxy; subst; constructor; auto.
  - constructor. auto.
Qed.

Lemma Subseq_app (xs xs' ys ys' : list A) :
  Subseq xs ys -> Subseq xs' ys' -> Subseq (xs ++ xs') (ys ++ ys').
Proof.
  induction 1 as [|x xs ys _ IH|y xs ys _ IH]; simpl; intros Hs;
    [assumption|constructor; auto..].
Qed.

Lemma Subseq_skipn (n : nat) (xs : list A) : Subseq (skipn n xs) xs.
Proof.
  revert n. induction xs as [|x xs IH]; intros [|n]; simpl;
    try apply Subseq_refl. constructor. apply IH.
Qed.

Lemma Subseq_length (xs ys : list A) :
  Subseq xs ys -> (List.length xs <= List.length ys)%nat.
Proof. induction 1; simpl; lia. Qed.

Lemma Subseq_filter_length (p : A -> bool) (xs ys : list A) :
  Subseq xs ys ->
  (List.length (filter p xs) <= List.length (filter p ys))%nat.
Proof.
  induction 1 as [|x xs ys _ IH|y xs ys _ IH]; simpl; [lia| |];
    destruct (p _); simpl; lia.
Qed.

Lemma Subseq_Forall (P : A -> Prop) (xs ys : list A) :
  Subseq xs ys -> Forall P ys -> Forall P xs.
Proof.
  induction 1 as [|x xs ys _ IH|y xs ys _ IH]; intros Hall.
  - constructor.
  - inversion Hall; subst. constructor; auto.
  - inversion Hall; subst. auto.
Qed.

Lemma Subseq_In (xs ys : list A) (x : A) : Subseq xs ys -> In x xs -> In x ys.
Proof.
  induction 1 as [|y xs ys _ IH|y xs ys _ IH]; simpl; intuition.
Qed.

Lemma filter_nil_Forall (p : A -> bool) (xs : list A) :
  List.length (filter p xs) = 0%nat <-> Forall (fun x => p x = false) xs.
Proof.
  induction xs as [|x xs IH]; simpl.
  - split; [constructor|reflexivity].
  - destruct (p x) eqn:E; simpl.
    + split; [discriminate|]. intros H. inversion H. congruence.
    + rewrite IH. split; [now constructor|]. intros H. now inversion H.
Qed.

(** What [findIndex] says when it finds no element. *)
Lemma findIndex_none (p : A -> bool) (xs : list A) :
  Js.findIndex p xs < 0 -> Forall (fun x => p x = false) xs.
Proof.
  induction xs as [|x xs IH]; simpl; [constructor|].
  destruct (p x) eqn:E; [lia|].
  destruct (Z.ltb_spec (Js.findIndex p xs) 0) as [Hlt|Hge]; intros Hi; [|lia].
  constructor; auto.
Qed.

Lemma findIndex_all_false (p : A -> bool) (xs : list A) :
  Forall (fun x => p x = false) xs -> Js.findIndex p xs = -1.
Proof.
  induction 1 as [|x xs Hx _ IH]; simpl; [reflexivity|].
  rewrite Hx, IH. reflexivity.
Qed.

(** What it says when it finds one: the first that satisfies [p]. *)
Lemma findIndex_found (p : A -> bool) (xs : list A) :
  0 <= Js.findIndex p xs ->
  exists pre x post,
    xs = (pre ++ x :: post)%list /\
    Js.findIndex p xs = Z.of_nat (List.length pre) /\
    p x = true /\
    Forall (fun y => p y = false) pre.
Proof.
  induction xs as [|x xs IH]; simpl; [lia|].
  destruct (p x) eqn:E.
  - intros _. exists [], x, xs. repeat split; auto.
  - destruct (Z.ltb_spec (Js.findIndex p xs) 0) as [Hlt|Hge]; [lia|].
    intros _. destruct (IH Hge) as (pre & y & post & -> & Hi & Hy & Hpre).
    exists (x :: pre), y, post. repeat split; auto.
    rewrite Hi. simpl List.length. lia.
Qed.

Lemma findIndex_ext (p q : A -> bool) (xs : list A) :
  (forall x, p x = q x) -> Js.findIndex p xs = Js.findIndex q xs.
Proof.
  intros H. induction xs as [|x xs IH]; simpl; [reflexivity|].
  now rewrite H, IH.
Qed.

(** [splice] that only inserts, at the front. *)
Lemma splice_insert_front (xs items : list A) :
  Js.splice xs 0 0 items = (items ++ xs)%list.
Proof.
  unfold Js.splice. cbv zeta. change (0 <? 0) with false. cbv iota.
  rewrite (Z.min_l 0) by lia.
  replace (0 + Z.min (Z.max 0 0) (Z.of_nat (List.length xs) - 0)) with 0 by lia.
  reflexivity.
Qed.

(** [splice] that only deletes, at the index of an element: the elements in
    front stay, and some of those behind. *)
Lemma splice_delete_at (pre post : list A) (x : A) (d : Z) :
  1 <= d ->
  exists k,
    Js.splice (pre ++ x :: post) (Z.of_nat (List.length pre)) d [] =
      (pre ++ skipn k post)%list /\
    (Z.of_nat k < d)%Z.
Proof.
  intros Hd. unfold Js.splice. cbv zeta.
  rewrite length_app. simpl List.length.
  destruct (Z.ltb_spec (Z.of_nat (List.length pre)) 0) as [Hneg|_]; [lia|].
  rewrite (Z.min_l (Z.of_nat (List.length pre))) by lia.
  remember (Z.min (Z.max d 0)
              (Z.of_nat (List.length pre + S (List.length post)) -
               Z.of_nat (List.length pre))) as count eqn:Ecount.
  assert (Hc : 1 <= count) by lia.
  exists (Z.to_nat (count - 1)). split; [|lia].
  rewrite Nat2Z.id, firstn_app, firstn_all, Nat.sub_diag. simpl.
  rewrite app_nil_r. f_equal.
  replace (Z.to_nat (Z.of_nat (List.length pre) + count))
    with (List.length pre + S (Z.to_nat (count - 1)))%nat by lia.
  rewrite skipn_app, skipn_all2 by lia.
  replace (List.length pre + S (Z.to_nat (count - 1)) - List.length pre)%nat
    with (S (Z.to_nat (count - 1))) by lia.
  reflexivity.
Qed.

(** Deleting from the first element that satisfies [p]: the array shrinks to
    a subsequence, by at most [d] elements, and by at least one that
    satisfies [p]. *)
Lemma splice_first_match (p : A -> bool) (xs : list A) (d : Z) :
  0 <= Js.findIndex p xs -> 1 <= d ->
  let xs' := Js.splice xs (Js.findIndex p xs) d [] in
  Subseq xs' xs /\
  Z.of_nat (List.length xs) <= Z.of_nat (List.length xs') + d /\
  (List.length (filter p xs') <= pred (List.length (filter p xs)))%nat /\
  exists x, Js.index xs (Js.findIndex p xs) = Some x.
Proof.
  intros Hi Hd.
  destruct (findIndex_found p xs Hi) as (pre & x & post & -> & -> & Hx & Hpre).
  destruct (splice_delete_at pre post x d Hd) as (k & -> & Hk).
  cbv zeta. repeat split.
  - apply Subseq_app; [apply Subseq_refl|]. constructor. apply Subseq_skipn.
  - rewrite !length_app, length_skipn. simpl List.length. lia.
  - rewrite !filter_app. simpl. rewrite Hx. rewrite !length_app. simpl.
    pose proof (Subseq_filter_length p _ _ (Subseq_skipn k post)). lia.
  - exists x. unfold Js.index.
    destruct (Z.ltb_spec (Z.of_nat (List.length pre)) 0); [lia|].
    rewrite Nat2Z.id, nth_error_app2, Nat.sub_diag by lia. reflexivity.
Qed.

End ArrayFacts.

(** ** The compile command *)

Section RemovalFacts.

Lemma matches_c_carries (item : string) : matches_c item = carries "c" item.
Proof.
  unfold matches_c, carries, Js.startsWith.
  change (Js.chars ("-" ++ "c")) with ["-"; "c"]%char.
  change (Js.chars ("/" ++ "c")) with ["/"; "c"]%char.
  destruct (Js.chars item) as [|c0 [|c1 r]]; cbn [Js.prefixb].
  - reflexivity.
  - now rewrite !andb_false_r.
  - rewrite !andb_true_r.
    rewrite (Ascii.eqb_sym c0 "/"), (Ascii.eqb_sym c0 "-"), (Ascii.eqb_sym c1 "c").
    destruct (Ascii.eqb "/" c0), (Ascii.eqb "-" c0), (Ascii.eqb "c" c1);
      reflexivity.
Qed.

Lemma removal_spec_untouched (d : Z) (f : string) (args : list string) :
  0 <= d -> Js.findIndex (carries f) args < 0 -> removal_spec d f args args.
Proof.
  intros Hd Hi. repeat split; auto using Subseq_refl; [lia|].
  apply findIndex_none, filter_nil_Forall in Hi. rewrite Hi. simpl. lia.
Qed.

Lemma removal_spec_splice (d d' : Z) (f : string) (args : list string) :
  0 <= Js.findIndex (carries f) args -> 1 <= d' <= d ->
  removal_spec d f args (Js.splice args (Js.findIndex (carries f) args) d' []).
Proof.
  intros Hi Hd.
  destruct (splice_first_match (carries f) args d' Hi) as (Hs & Hl & Hc & _);
    [lia|].
  repeat split; auto; [lia|].
  intros Hall. apply findIndex_all_false in Hall. lia.
Qed.

Lemma remove_output_flag_spec (args : list string) (f : string) :
  removal_spec 2 f args (remove_output_flag args f).
Proof.
  unfold remove_output_flag. cbv zeta.
  destruct (Z.ltb_spec (Js.findIndex (carries f) args) 0) as [Hlt|Hge].
  - apply removal_spec_untouched; lia.
  - destruct (splice_first_match (carries f) args 1 Hge) as (_ & _ & _ & x & ->);
      [lia|].
    destruct (_ =? _); apply removal_spec_splice; lia.
Qed.

Lemma remove_debug_flag_spec (args : list string) (f : string) :
  removal_spec 1 f args (remove_debug_flag args f).
Proof.
  unfold remove_debug_flag. cbv zeta.
  destruct (Z.leb_spec 0 (Js.findIndex (carries f) args)) as [Hge|Hlt].
  - apply removal_spec_splice; lia.
  - apply removal_spec_untouched; lia.
Qed.

Lemma remove_compile_flag_spec (args : list string) :
  removal_spec 2 "c" args (remove_compile_flag args).
Proof.
  unfold remove_compile_flag. cbv zeta.
  rewrite (findIndex_ext matches_c (carries "c") args matches_c_carries).
  destruct (Z.leb_spec 0 (Js.findIndex (carries "c") args)) as [Hge|Hlt].
  - destruct (splice_first_match (carries "c") args 1 Hge) as (_ & _ & _ & x & ->);
      [lia|].
    destruct (_ =? _); apply removal_spec_splice; lia.
  - apply removal_spec_untouched; lia.
Qed.

(** A loop of removals, one for each flag of [fs]. *)
Variable remove : list string -> string -> list string.
Variable d : Z.
Hypothesis d_nonneg : 0 <= d.
Hypothesis remove_spec : forall args f, removal_spec d f args (remove args f).

Lemma loop_Subseq (fs : list string) (args : list string) :
  Subseq (fold_left remove fs args) args.
Proof.
  revert args. induction fs as [|f fs IH]; simpl; intros args.
  - apply Subseq_refl.
  - eapply Subseq_trans; [apply IH|]. apply remove_spec.
Qed.

Lemma loop_length (fs : list string) (args : list string) :
  Z.of_nat (List.length args) <=
  Z.of_nat (List.length (fold_left remove fs args)) + d * Z.of_nat (List.length fs).
Proof.
  revert args. induction fs as [|f fs IH]; simpl fold_left; intros args.
  - simpl. lia.
  - destruct (remove_spec args f) as (_ & Hl & _).
    specialize (IH (remove args f)). simpl List.length. lia.
Qed.

Lemma loop_clears (fs : list string) (args : list string) (f : string) :
  In f fs ->
  (List.length (filter (carries f) args) <= 1)%nat ->
  List.length (filter (carries f) (fold_left remove fs args)) = 0%nat.
Proof.
  revert args. induction fs as [|g fs IH]; simpl; intros args Hin Hone;
    [contradiction|].
  destruct Hin as [->|Hin].
  - destruct (remove_spec args f) as (_ & _ & Hc & _).
    pose proof (Subseq_filter_length (carries f) _ _
                  (loop_Subseq fs (remove args f))).
    lia.
  - apply IH; [assumption|].
    destruct (remove_spec args g) as (Hs & _).
    pose proof (Subseq_filter_length (carries f) _ _ Hs). lia.
Qed.

Lemma loop_unchanged (fs : list string) (args : list string) :
  (forall f, In f fs -> Forall (fun item => carries f item = false) args) ->
  fold_left remove fs args = args.
Proof.
  induction fs as [|f fs IH]; simpl; intros Hall; [reflexivity|].
  destruct (remove_spec args f) as (_ & _ & _ & ->); auto.
Qed.

End RemovalFacts.

Section CommandFacts.

Lemma stripped_args_Subseq (args : list string) : Subseq (stripped_args args) args.
Proof.
  unfold stripped_args.
  eapply Subseq_trans; [apply remove_compile_flag_spec|].
  eapply Subseq_trans;
    [apply (loop_Subseq remove_debug_flag 1 remove_debug_flag_spec)|].
  apply (loop_Subseq remove_output_flag 2 remove_output_flag_spec).
Qed.

End CommandFacts.

(** X1: the command handed to the compiler is the three listing flags, then
    what is left of the original arguments, then [-c tmppath].  What is left
    is a subsequence of the original arguments: the rewriting only deletes,
    it never reorders or changes an argument, and it deletes at most twenty
    of them. *)
Theorem listing_args_shape (args : list string) (asmpath tmppath : string) :
  listing_args args asmpath tmppath =
    (["/FAs"; ("/Fa" ++ asmpath)%string; ("/Fo" ++ asmpath ++ ".obj")%string]
       ++ stripped_args args ++ ["-c"; tmppath])%list /\
  Subseq (stripped_args args) args /\
  Z.of_nat (List.length args) <= Z.of_nat (List.length (stripped_args args)) + 20.
Proof.
  split; [|split].
  - unfold listing_args. cbv zeta.
    rewrite splice_insert_front, splice_insert_front. cbn [List.app]. reflexivity.
  - apply stripped_args_Subseq.
  - unfold stripped_args.
    destruct (remove_compile_flag_spec
                (fold_left remove_debug_flag debug_flags
                   (fold_left remove_output_flag output_prefixes args)))
      as (_ & Hc & _).
    pose proof (loop_length remove_debug_flag 1 remove_debug_flag_spec debug_flags
                  (fold_left remove_output_flag output_prefixes args)) as Hd.
    pose proof (loop_length remove_output_flag 2 remove_output_flag_spec
                  output_prefixes args) as Ho.
    change (List.length debug_flags) with 2%nat in Hd.
    change (List.length output_prefixes) with 8%nat in Ho.
    lia.
Qed.

(** X2: a flag the rewriting looks for (an output prefix, a debug flag, or
    [c]) that at most one argument carries is carried by none of the
    arguments that are left. *)
Theorem stripped_args_clears_single_flag (args : list string) (f : string) :
  In f removed_flags ->
  (List.length (filter (carries f) args) <= 1)%nat ->
  Forall (fun item => carries f item = false) (stripped_args args).
Proof.
  intros Hf Hone. apply filter_nil_Forall.
  unfold removed_flags in Hf. unfold stripped_args.
  set (a1 := fold_left remove_output_flag output_prefixes args).
  set (a2 := fold_left remove_debug_flag debug_flags a1).
  assert (H1 : Subseq a1 args)
    by apply (loop_Subseq remove_output_flag 2 remove_output_flag_spec).
  assert (H2 : Subseq a2 a1)
    by apply (loop_Subseq remove_debug_flag 1 remove_debug_flag_spec).
  destruct (remove_compile_flag_spec a2) as (H3 & _ & Hc & _).
  pose proof (Subseq_filter_length (carries f) _ _ H1) as L1.
  pose proof (Subseq_filter_length (carries f) _ _ H2) as L2.
  pose proof (Subseq_filter_length (carries f) _ _ H3) as L3.
  apply in_app_or in Hf as [Hf|Hf]; [|apply in_app_or in Hf as [Hf|Hf]].
  - pose proof (loop_clears remove_output_flag 2 remove_output_flag_spec
                  output_prefixes args f Hf Hone) as E.
    fold a1 in E. lia.
  - assert (Hone' : (List.length (filter (carries f) a1) <= 1)%nat) by lia.
    pose proof (loop_clears remove_debug_flag 1 remove_debug_flag_spec
                  debug_flags a1 f Hf Hone') as E.
    fold a2 in E. lia.
  - destruct Hf as [<-|[]]. lia.
Qed.

Lemma stripped_args_clears_single_flag_witness :
  Forall (fun item => carries "Fo" item = false)
    (stripped_args ["/nologo"; "/Fo"; "t.obj"; "/Zi"; "/c"; "t.c"]).
Proof.
  apply (stripped_args_clears_single_flag
           ["/nologo"; "/Fo"; "t.obj"; "/Zi"; "/c"; "t.c"] "Fo").
  - vm_compute. auto.
  - vm_compute. lia.
Defined.

(** X3: a command none of whose arguments carries a flag the rewriting looks
    for keeps all its arguments. *)
Theorem stripped_args_unchanged (args : list string) :
  (forall f, In f removed_flags ->
             Forall (fun item => carries f item = false) args) ->
  stripped_args args = args.
Proof.
  intros Hall. unfold stripped_args, removed_flags in *.
  rewrite (loop_unchanged remove_output_flag 2 remove_output_flag_spec).
  2:{ intros f Hf. apply Hall, in_or_app. now left. }
  rewrite (loop_unchanged remove_debug_flag 1 remove_debug_flag_spec).
  2:{ intros f Hf. apply Hall, in_or_app. right. apply in_or_app. now left. }
  destruct (remove_compile_flag_spec args) as (_ & _ & _ & E).
  apply E, Hall, in_or_app. right. apply in_or_app. right. now left.
Qed.

Lemma stripped_args_unchanged_witness :
  stripped_args ["/nologo"; "/W4"; "/O2"; "t.c"] = ["/nologo"; "/W4"; "/O2"; "t.c"].
Proof.
  apply (stripped_args_unchanged ["/nologo"; "/W4"; "/O2"; "t.c"]).
  intros f Hf. vm_compute in Hf.
  repeat (destruct Hf as [<-|Hf]; [repeat constructor|]). contradiction.
Defined.

(** ** More on the parser *)

Section ParserMore.
Import Js JsFacts MapFacts.

Lemma chars_app (s1 s2 : string) : chars (s1 ++ s2) = (chars s1 ++ chars s2)%list.
Proof.
  unfold chars. induction s1 as [|c s1 IH]; simpl; [reflexivity|now rewrite IH].
Qed.

Lemma prefixb_app (p l l' : list ascii) :
  prefixb p l = true -> prefixb p (l ++ l') = true.
Proof.
  revert l. induction p as [|a p IH]; intros [|b l]; simpl; try easy.
  intros H. apply andb_prop in H as [-> H]. simpl. auto.
Qed.

Lemma startsWith_app (s t p : string) :
  startsWith s p = true -> startsWith (s ++ t) p = true.
Proof. unfold startsWith. rewrite chars_app. apply prefixb_app. Qed.

Lemma startsWith_join (sep p : string) (xs : list string) :
  xs <> [] -> Forall (fun x => startsWith x p = true) xs ->
  startsWith (join sep xs) p = true.
Proof.
  intros Hne Hall. destruct Hall as [|x xs Hx _]; [contradiction|].
  simpl. destruct xs; [assumption|now apply startsWith_app].
Qed.

Lemma Subseq_nil_l {A : Type} (xs : list A) : Subseq [] xs.
Proof. induction xs; constructor; assumption. Qed.

Lemma Subseq_snoc_r {A : Type} (xs ys : list A) (y : A) :
  Subseq xs ys -> Subseq xs (ys ++ [y]).
Proof.
  intros H. rewrite <- (app_nil_r xs).
  apply Subseq_app; [assumption|apply Subseq_nil_l].
Qed.

(** Distinct numbers among [1 .. n] are at most [n]. *)
Lemma keys_bounded_length (ks : list Z) (n : Z) :
  NoDup ks -> Forall (fun k => 1 <= k <= n) ks ->
  (List.length ks <= Z.to_nat n)%nat.
Proof.
  intros Hnd Hall.
  assert (Hnd' : NoDup (map Z.to_nat ks)).
  { induction Hnd as [|k ks Hk Hnd IH]; simpl; constructor.
    - inversion Hall as [|? ? Hk1 Hks]; subst. intros Hin.
      apply in_map_iff in Hin as (k' & E & Hin').
      rewrite Forall_forall in Hks. specialize (Hks k' Hin').
      assert (k' = k) by lia. subst. contradiction.
    - apply IH. now inversion Hall. }
  assert (Hincl : incl (map Z.to_nat ks) (seq 1 (Z.to_nat n))).
  { intros x Hx. apply in_map_iff in Hx as (k & <- & Hk).
    rewrite Forall_forall in Hall. specialize (Hall k Hk).
    apply in_seq. lia. }
  pose proof (NoDup_incl_length Hnd' Hincl) as H.
  now rewrite length_map, length_seq in H.
Qed.

Variable tmppath : string.
Variable total_lines : Z.

(** The instructions of every line, as the parser holds them. *)
Lemma parse_values (ls : list string) (k : Z) (v : list string) :
  In (k, v) (parse tmppath total_lines ls) ->
  v <> [] /\ Subseq v ls /\ Forall (fun l => startsWith l TAB = true) v.
Proof.
  unfold parse. revert k v.
  induction ls as [|l ls IH] using rev_ind; intros k v; [contradiction|].
  rewrite run_snoc.
  destruct (each_line_content tmppath total_lines (run tmppath total_lines ls) l)
    as [->|(_ & _ & Htab & [[_ ->]|(v0 & _ & ->)])].
  - intros H. destruct (IH _ _ H) as (Hne & Hs & Ht).
    auto using Subseq_snoc_r.
  - intros H. apply in_app_or in H as [H|[E|[]]].
    + destruct (IH _ _ H) as (Hne & Hs & Ht). auto using Subseq_snoc_r.
    + inversion E; subst. repeat split; [discriminate| |now repeat constructor].
      apply (Subseq_app [] [l] ls [l]); [apply Subseq_nil_l|apply Subseq_refl].
  - intros H. apply In_push in H as [H|(v1 & H & ->)].
    + destruct (IH _ _ H) as (Hne & Hs & Ht). auto using Subseq_snoc_r.
    + destruct (IH _ _ H) as (Hne & Hs & Ht). repeat split.
      * destruct v1; discriminate.
      * apply Subseq_app; [assumption|apply Subseq_refl].
      * apply Forall_app. split; [assumption|now repeat constructor].
Qed.

End ParserMore.

(** X4: while the parser is outside the target file (at the start of the
    listing, after the directive of another file, after a segment-close
    marker), the lines up to the next file-boundary directive naming
    [tmppath] have no effect: the state, and so the mapping, is what it is
    without them. *)
Theorem lines_outside_target_ignored
    (tmppath : string) (total_lines : Z) (pre mid post : list string) :
  in_file (run tmppath total_lines pre) = false ->
  Forall (not_target tmppath) mid ->
  run tmppath total_lines (pre ++ mid ++ post) =
  run tmppath total_lines (pre ++ post).
Proof.
  intros Hout Hmid. unfold run. rewrite !run_from_app. f_equal.
  apply run_from_idle; [assumption| |  |assumption].
  - now apply run_outside_in_text.
  - now apply (inv_outside total_lines _ (Inv_run tmppath total_lines pre)).
Qed.

Lemma lines_outside_target_ignored_witness :
  run ".asme-t.c" 3
    (["; File .asme-t.c"; "; 1 :"; instr "push ebp"; ("_f" ++ TAB ++ "ENDP")%string]
       ++ ["; 2 :"; instr "int 3"; "; File c:\src\other.h"; instr "nop"]
       ++ ["; File .asme-t.c"; "; 3 :"; instr "ret"])%list =
  run ".asme-t.c" 3
    (["; File .asme-t.c"; "; 1 :"; instr "push ebp"; ("_f" ++ TAB ++ "ENDP")%string]
       ++ ["; File .asme-t.c"; "; 3 :"; instr "ret"])%list.
Proof.
  apply (lines_outside_target_ignored ".asme-t.c" 3
           ["; File .asme-t.c"; "; 1 :"; instr "push ebp"; ("_f" ++ TAB ++ "ENDP")%string]
           ["; 2 :"; instr "int 3"; "; File c:\src\other.h"; instr "nop"]
           ["; File .asme-t.c"; "; 3 :"; instr "ret"]).
  - reflexivity.
  - repeat constructor.
Defined.

(** X5: the mapping only grows as the listing goes on: after more lines its
    keys are the keys it had, in the same order, then possibly new ones, and
    each line it had keeps its instructions, with possibly more after them. *)
Theorem parse_grows (tmppath : string) (total_lines : Z) (pre post : list string) :
  grows (parse tmppath total_lines pre) (parse tmppath total_lines (pre ++ post)).
Proof.
  unfold parse, run. rewrite run_from_app. apply run_from_grows.
Qed.

Lemma parse_grows_witness :
  grows
    (parse ".asme-t.c" 3 ["; File .asme-t.c"; "; 2 :"; instr "mov eax, 1"])
    (parse ".asme-t.c" 3
       (["; File .asme-t.c"; "; 2 :"; instr "mov eax, 1"]
          ++ [instr "ret"; "; 1 :"; instr "push ebp"])%list).
Proof.
  apply (parse_grows ".asme-t.c" 3
           ["; File .asme-t.c"; "; 2 :"; instr "mov eax, 1"]
           [instr "ret"; "; 1 :"; instr "push ebp"]).
Defined.

(** X6: the instructions the parser holds for a line are lines of the
    listing, in the order of the listing, each starting with a tab, and there
    is at least one. *)
Theorem parse_collects_listing_lines
    (tmppath : string) (total_lines : Z) (ls : list string)
    (k : Z) (v : list string) :
  In (k, v) (parse tmppath total_lines ls) ->
  v <> [] /\ Subseq v ls /\ Forall (fun l => Js.startsWith l TAB = true) v.
Proof. apply parse_values. Qed.

Lemma parse_collects_listing_lines_witness :
  [instr "mov eax, 1"] <> [] /\
  Subseq [instr "mov eax, 1"] sample_listing /\
  Forall (fun l => Js.startsWith l TAB = true) [instr "mov eax, 1"].
Proof.
  apply (parse_collects_listing_lines ".asme-t.c" 3 sample_listing 2).
  vm_compute. auto.
Defined.

(** ** More on the assembler and on the whole pass *)

Section AssemblerMore.
Import Js JsFacts MapFacts.

Variable doc : TextDocument.

Lemma lineAt_None_iff (k : Z) :
  lineAt doc (Z.min k (lineCount doc) - 1) = None <->
  k < 1 \/ lineCount doc < 1.
Proof.
  unfold lineAt.
  destruct (Z.ltb_spec (Z.min k (lineCount doc) - 1) 0) as [Hlt|Hge]; simpl.
  - split; [lia|reflexivity].
  - destruct (Z.leb_spec (lineCount doc) (Z.min k (lineCount doc) - 1)); [lia|].
    split; [|lia]. intros E. apply nth_error_None in E.
    unfold lineCount in *. lia.
Qed.

Lemma map_entries_Thrown_iff (m : Map) :
  map_entries doc m = Thrown <->
  Exists (fun k => k < 1 \/ lineCount doc < 1) (keys m).
Proof.
  induction m as [|[k asms] m IH]; simpl.
  - split; [discriminate|]. intros H. inversion H.
  - rewrite Exists_cons, <- IH, <- lineAt_None_iff.
    destruct (lineAt doc (Z.min k (lineCount doc) - 1)) as [text|].
    + destruct (map_entries doc m).
      * split; [discriminate|]. intros [H|H]; discriminate.
      * split; auto.
    + split; auto.
Qed.

Lemma map_entries_fields (m : Map) (xs : list AssemblyListing) :
  map_entries doc m = Returned xs ->
  map (fun a => (line a, assembly a)) xs =
  map (fun e => (fst e, join CRLF (snd e))) m.
Proof.
  intros H. apply map_entries_Returned in H.
  induction H as [|[k asms] a m xs Ha _ IH]; simpl; [reflexivity|].
  apply listing_of_Returned in Ha as (-> & _ & -> & _). now rewrite IH.
Qed.

(** [.map] over the same entries in another order. *)
Lemma map_entries_Permutation (m m' : Map) :
  Permutation m m' ->
  match map_entries doc m, map_entries doc m' with
  | Returned xs, Returned xs' => Permutation xs xs'
  | Thrown, Thrown => True
  | _, _ => False
  end.
Proof.
  induction 1 as [|e m m' _ IH|e1 e2 m|m1 m2 m3 _ IH1 _ IH2]; simpl.
  - constructor.
  - destruct (listing_of doc e); [|exact I].
    destruct (map_entries doc m), (map_entries doc m'); auto.
  - destruct (listing_of doc e1), (listing_of doc e2),
      (map_entries doc m); auto using perm_swap, Permutation_refl.
  - destruct (map_entries doc m1), (map_entries doc m2), (map_entries doc m3);
      try contradiction; auto. eapply Permutation_trans; eauto.
Qed.

(** Two strictly sorted sequences with the same entries are equal. *)
Lemma strict_sorted_Permutation_eq (xs ys : list AssemblyListing) :
  StronglySorted line_lt xs -> StronglySorted line_lt ys ->
  Permutation xs ys -> xs = ys.
Proof.
  intros Hx. revert ys.
  induction Hx as [|a xs Hxs IH Ha]; intros ys Hy Hp.
  - apply Permutation_nil in Hp. now subst.
  - destruct Hy as [|b ys Hys Hb].
    + apply Permutation_sym, Permutation_nil in Hp. discriminate.
    + assert (E : a = b).
      { assert (Hain : In a (b :: ys))
          by (apply (Permutation_in _ Hp); now left).
        assert (Hbin : In b (a :: xs))
          by (apply (Permutation_in _ (Permutation_sym Hp)); now left).
        destruct Hain as [->|Hain]; [reflexivity|].
        destruct Hbin as [->|Hbin]; [reflexivity|].
        rewrite Forall_forall in Ha, Hb.
        specialize (Ha b Hbin). specialize (Hb a Hain).
        unfold line_lt in *. lia. }
      subst b. f_equal. apply IH; [assumption|].
      now apply Permutation_cons_inv in Hp.
Qed.

(** Decorations for entries with positive lines, in a document with a line. *)
Lemma decorations_total (doc' : TextDocument) (out : list AssemblyListing) :
  Forall (fun a => 1 <= line a) out -> 1 <= lineCount doc' ->
  exists ds,
    decorations doc' out = Returned ds /\
    Forall2 (fun a d =>
               range d = Z.min (line a) (lineCount doc') - 1 /\
               hoverMessage d = assembly a /\
               backgroundColor d = color a) out ds.
Proof.
  intros Hall Hn. induction Hall as [|a out Ha _ IH]; simpl.
  - exists []. split; [reflexivity|constructor].
  - unfold decoration_of.
    destruct (lineAt_clamped doc' (line a) Ha Hn) as [text ->].
    destruct IH as (ds & -> & Hds).
    eexists. split; [reflexivity|]. constructor; [simpl; auto|assumption].
Qed.

End AssemblerMore.

Section PassFacts.
Import Js JsFacts MapFacts.

Variable tmppath : string.
Variable stream : list (TextDocument * string).
Variable doc : TextDocument.

(** Every listing the pass returns, with the entry of the map it is made of. *)
Lemma _decorateMSVC_In (out : list AssemblyListing) (a : AssemblyListing) :
  _decorateMSVC tmppath stream doc = Returned out -> In a out ->
  exists asms,
    In (line a, asms) (line_content (run_live tmppath stream)) /\
    1 <= line a /\
    listing_of doc (line a, asms) = Returned a.
Proof.
  intros Hout Ha.
  destruct (assemble_In doc _ out a Hout Ha) as (k & asms & Hin & Hl).
  pose proof (listing_of_Returned doc _ _ _ Hl) as (<- & _).
  exists asms. repeat split; try assumption.
  destruct (run_live_keys tmppath stream) as [_ Hk].
  rewrite Forall_forall in Hk.
  apply (Hk (line a)), (in_map fst _ _ Hin).
Qed.

Lemma _decorateMSVC_lines_positive (out : list AssemblyListing) :
  _decorateMSVC tmppath stream doc = Returned out ->
  Forall (fun a => 1 <= line a) out.
Proof.
  intros Hout. apply Forall_forall. intros a Ha.
  now destruct (_decorateMSVC_In out a Hout Ha) as (_ & _ & H & _).
Qed.

(** When the document has not lost lines, every listing is for one of its
    lines, and has the text of that line. *)
Lemma _decorateMSVC_code (out : list AssemblyListing) (a : AssemblyListing) :
  not_shrunk stream doc ->
  _decorateMSVC tmppath stream doc = Returned out -> In a out ->
  1 <= line a <= lineCount doc /\
  nth_error (text_lines doc) (Z.to_nat (line a - 1)) = Some (code a).
Proof.
  intros Hdoc Hout Ha.
  destruct (_decorateMSVC_In out a Hout Ha) as (asms & Hin & Hpos & Hl).
  assert (Hrange : 1 <= line a <= lineCount doc).
  { pose proof (run_live_keys_in_range tmppath stream doc Hdoc) as Hk.
    rewrite Forall_forall in Hk.
    apply (Hk (line a)), (in_map fst _ _ Hin). }
  apply listing_of_Returned in Hl as (_ & _ & _ & Hcode & _).
  split; [assumption|].
  rewrite Z.min_l in Hcode by lia. unfold lineAt in Hcode.
  destruct (_ || _); [discriminate|assumption].
Qed.

End PassFacts.

Lemma Forall2_Forall_impl {A B : Type} (P : A -> Prop) (R R' : A -> B -> Prop)
    (xs : list A) (ys : list B) :
  Forall P xs -> Forall2 R xs ys ->
  (forall a b, P a -> R a b -> R' a b) ->
  Forall2 R' xs ys.
Proof.
  intros HP HR Himp. induction HR as [|a b xs ys Hab _ IH]; constructor.
  - apply Himp; [now inversion HP|assumption].
  - apply IH. now inversion HP.
Qed.

(** X7: when the document has not lost lines (it has, when the result is
    built, at least the lines it had each time the parser read its line
    count), the pass returns at most one listing for a line of the document:
    never more listings than the document has lines. *)
Theorem _decorateMSVC_length
    (tmppath : string) (stream : list (TextDocument * string))
    (doc : TextDocument) (out : list AssemblyListing) :
  not_shrunk stream doc ->
  _decorateMSVC tmppath stream doc = Returned out ->
  (List.length out <= List.length (text_lines doc))%nat.
Proof.
  intros Hdoc Hout. apply assemble_Returned in Hout as (xs & Hxs & ->).
  rewrite <- (Permutation_length (sort_by_line_perm xs)).
  rewrite <- (length_map line), (map_entries_lines _ _ _ Hxs).
  rewrite <- (Nat2Z.id (List.length (text_lines doc))).
  apply keys_bounded_length;
    [apply run_live_keys|now apply run_live_keys_in_range].
Qed.

Lemma _decorateMSVC_length_witness :
  (3 <= List.length (text_lines sample_doc))%nat.
Proof.
  apply (_decorateMSVC_length ".asme-t.c" (unchanged sample_doc sample_listing)
           sample_doc
           [ {| line := 1; file := "t.c"; assembly := instr "push ebp";
                code := "int f()"; color := Some "#decbe4" |};
             {| line := 2; file := "t.c"; assembly := instr "mov eax, 1";
                code := "{ return 1;"; color := Some "#e5d8bd" |};
             {| line := 3; file := "t.c"; assembly := instr "ret 0";
                code := "}"; color := Some "#b3cde3" |} ]).
  - repeat constructor; discriminate.
  - reflexivity.
Defined.

(** X8: every listing the pass returns has a [line] of 1 or more, for
    [code] the text of the document at index [min line lineCount - 1], for
    [file] the name of the document, a [color] that is one of [COLORS], and an
    [assembly] that starts with a tab, so is not empty.  When the document has
    not lost lines while the listing was read, [line] is a line of the
    document and [code] is the text of that very line: the clamp of [lineAt]
    does not apply. *)
Theorem _decorateMSVC_entries
    (tmppath : string) (stream : list (TextDocument * string))
    (doc : TextDocument) (out : list AssemblyListing) (a : AssemblyListing) :
  _decorateMSVC tmppath stream doc = Returned out ->
  In a out ->
  1 <= line a /\
  nth_error (text_lines doc)
    (Z.to_nat (Z.min (line a) (lineCount doc) - 1)) = Some (code a) /\
  file a = fileName doc /\
  (exists c, color a = Some c /\ In c COLORS) /\
  Js.startsWith (assembly a) TAB = true /\
  (not_shrunk stream doc ->
   line a <= lineCount doc /\
   nth_error (text_lines doc) (Z.to_nat (line a - 1)) = Some (code a)).
Proof.
  intros Hout Ha.
  destruct (_decorateMSVC_In tmppath stream doc out a Hout Ha)
    as (asms & Hin & Hpos & Hl).
  apply listing_of_Returned in Hl as (_ & Hfile & Hasm & Hcode & Hcolor).
  repeat split; try assumption.
  - unfold lineAt in Hcode. destruct (_ || _); [discriminate|assumption].
  - rewrite Hcolor. unfold Js.index.
    pose proof (Z.rem_bound_pos (line a * 11) 8) as Hb.
    destruct (Z.ltb_spec (Z.rem (line a * 11) 8) 0) as [Hneg|_]; [lia|].
    destruct (nth_error COLORS (Z.to_nat (Z.rem (line a * 11) 8))) as [c|] eqn:E.
    + exists c. split; [reflexivity|]. eapply nth_error_In, E.
    + apply nth_error_None in E. simpl in E. lia.
  - rewrite Hasm.
    destruct (run_live_values tmppath stream _ _ Hin) as (Hne & Ht).
    now apply startsWith_join.
  - now apply (_decorateMSVC_code tmppath stream doc out a).
  - now apply (_decorateMSVC_code tmppath stream doc out a).
Qed.

Lemma _decorateMSVC_entries_witness :
  1 <= 2 /\
  nth_error (text_lines sample_doc)
    (Z.to_nat (Z.min 2 (lineCount sample_doc) - 1)) = Some "{ return 1;" /\
  "t.c" = fileName sample_doc /\
  (exists c, Some "#e5d8bd" = Some c /\ In c COLORS) /\
  Js.startsWith (instr "mov eax, 1") TAB = true /\
  (not_shrunk (unchanged sample_doc sample_listing) sample_doc ->
   2 <= lineCount sample_doc /\
   nth_error (text_lines sample_doc) (Z.to_nat (2 - 1)) = Some "{ return 1;").
Proof.
  apply (_decorateMSVC_entries ".asme-t.c" (unchanged sample_doc sample_listing)
           sample_doc
           [ {| line := 1; file := "t.c"; assembly := instr "push ebp";
                code := "int f()"; color := Some "#decbe4" |};
             {| line := 2; file := "t.c"; assembly := instr "mov eax, 1";
                code := "{ return 1;"; color := Some "#e5d8bd" |};
             {| line := 3; file := "t.c"; assembly := instr "ret 0";
                code := "}"; color := Some "#b3cde3" |} ]
           {| line := 2; file := "t.c"; assembly := instr "mov eax, 1";
              code := "{ return 1;"; color := Some "#e5d8bd" |}).
  - reflexivity.
  - simpl. auto.
Defined.

(** X9: the assembler throws exactly when the map has a key below 1, or has a
    key at all while the document has no line: these are the cases in which
    [lineAt] is given an index outside the document. *)
Theorem assemble_Thrown_iff (doc : TextDocument) (m : Js.Map) :
  assemble doc m = Thrown <->
  Exists (fun k => k < 1 \/ lineCount doc < 1) (Js.keys m).
Proof.
  rewrite <- map_entries_Thrown_iff. unfold assemble.
  destruct (map_entries doc m); split; congruence.
Qed.

Lemma assemble_Thrown_iff_witness :
  assemble sample_doc [(2, [instr "ret"]); (0, [instr "nop"])] = Thrown.
Proof.
  apply (proj2 (assemble_Thrown_iff sample_doc
                  [(2, [instr "ret"]); (0, [instr "nop"])])).
  simpl. right. left. left. lia.
Defined.

(** X10: the result of the assembler does not depend on the order in which
    the parser met the lines: two maps with the same entries, their keys
    distinct, give the same result. *)
Theorem assemble_order_independent (doc : TextDocument) (m m' : Js.Map) :
  Permutation m m' ->
  NoDup (Js.keys m) ->
  assemble doc m = assemble doc m'.
Proof.
  intros Hp Hnd.
  assert (Hnd' : NoDup (Js.keys m')).
  { eapply Permutation_NoDup; [apply Permutation_map, Hp|assumption]. }
  pose proof (map_entries_Permutation doc m m' Hp) as Hm.
  destruct (assemble doc m) as [out|] eqn:E, (assemble doc m') as [out'|] eqn:E'.
  - destruct (assemble_ascending doc m out Hnd E) as [Hs _].
    destruct (assemble_ascending doc m' out' Hnd' E') as [Hs' _].
    apply assemble_Returned in E as (xs & Hxs & ->).
    apply assemble_Returned in E' as (xs' & Hxs' & ->).
    rewrite Hxs, Hxs' in Hm. f_equal.
    apply strict_sorted_Permutation_eq; try assumption.
    rewrite <- (sort_by_line_perm xs), <- (sort_by_line_perm xs'). exact Hm.
  - apply assemble_Returned in E as (xs & Hxs & _).
    unfold assemble in E'. rewrite Hxs in Hm.
    destruct (map_entries doc m'); [discriminate|contradiction].
  - apply assemble_Returned in E' as (xs' & Hxs' & _).
    unfold assemble in E. rewrite Hxs' in Hm.
    destruct (map_entries doc m); [discriminate|contradiction].
  - reflexivity.
Qed.

Lemma assemble_order_independent_witness :
  assemble sample_doc [(2, [instr "ret"]); (1, [instr "push ebp"])] =
  assemble sample_doc [(1, [instr "push ebp"]); (2, [instr "ret"])].
Proof.
  apply (assemble_order_independent sample_doc
           [(2, [instr "ret"]); (1, [instr "push ebp"])]
           [(1, [instr "push ebp"]); (2, [instr "ret"])]).
  - apply perm_swap.
  - simpl. repeat constructor; simpl; intuition discriminate.
Defined.

(** X11: the assembler loses and invents nothing: the pairs of a line and its
    assembly in the result are those of the map, the instructions of a line
    joined with CR LF in the order the map holds them. *)
Theorem assemble_entries
    (doc : TextDocument) (m : Js.Map) (out : list AssemblyListing) :
  assemble doc m = Returned out ->
  Permutation (map (fun a => (line a, assembly a)) out)
              (map (fun e => (fst e, Js.join CRLF (snd e))) m).
Proof.
  intros Hout. apply assemble_Returned in Hout as (xs & Hxs & ->).
  rewrite <- (map_entries_fields doc m xs Hxs).
  apply Permutation_map, Permutation_sym, sort_by_line_perm.
Qed.

Lemma assemble_entries_witness :
  Permutation
    [(1, instr "push ebp"); (2, instr "mov eax, 1" ++ CRLF ++ instr "ret")]
    [(2, instr "mov eax, 1" ++ CRLF ++ instr "ret"); (1, instr "push ebp")].
Proof.
  apply (assemble_entries sample_doc
           [(2, [instr "mov eax, 1"; instr "ret"]); (1, [instr "push ebp"])]
           [ {| line := 1; file := "t.c"; assembly := instr "push ebp";
                code := "int f()"; color := Some "#decbe4" |};
             {| line := 2; file := "t.c";
                assembly := instr "mov eax, 1" ++ CRLF ++ instr "ret";
                code := "{ return 1;"; color := Some "#e5d8bd" |} ]).
  reflexivity.
Defined.

(** ** The editor decorations *)

(** X12: when the document has not lost lines while the listing was read
    and is, when the decorations are built, as it was when the pass built its
    result, building the decorations does not throw; there is one decoration
    for each listing, on the line of the document the listing is for (index
    [line - 1]), with the assembly as hover text and the colour of the
    listing. *)
Theorem decorations_of_pass
    (tmppath : string) (stream : list (TextDocument * string))
    (doc : TextDocument) (out : list AssemblyListing) :
  not_shrunk stream doc ->
  _decorateMSVC tmppath stream doc = Returned out ->
  exists ds,
    decorations doc out = Returned ds /\
    Forall2 (fun a d =>
               range d = line a - 1 /\
               nth_error (text_lines doc) (Z.to_nat (range d)) = Some (code a) /\
               hoverMessage d = assembly a /\
               backgroundColor d = color a) out ds.
Proof.
  intros Hdoc Hout.
  assert (Hown : Forall (fun a => 1 <= line a <= lineCount doc /\
                   nth_error (text_lines doc) (Z.to_nat (line a - 1)) =
                     Some (code a)) out).
  { apply Forall_forall. intros a Ha.
    now apply (_decorateMSVC_code tmppath stream doc out a). }
  destruct out as [|a0 out'].
  { exists []. split; [reflexivity|constructor]. }
  assert (Hn : 1 <= lineCount doc) by (inversion Hown; subst; lia).
  destruct (decorations_total doc (a0 :: out')) as (ds & Hds & Hall);
    [eapply Forall_impl; [|exact Hown]; simpl; lia|assumption|].
  exists ds. split; [assumption|].
  apply (Forall2_Forall_impl _ _ _ _ _ Hown Hall).
  intros a d [Hra Hcode] (Hrg & Hh & Hb).
  rewrite Hrg, Z.min_l by lia. auto.
Qed.

Lemma decorations_of_pass_witness :
  exists ds,
    decorations sample_doc
      [ {| line := 2; file := "t.c"; assembly := instr "ret";
           code := "{ return 1;"; color := Some "#e5d8bd" |} ] = Returned ds /\
    Forall2 (fun a d =>
               range d = line a - 1 /\
               nth_error (text_lines sample_doc) (Z.to_nat (range d)) = Some (code a) /\
               hoverMessage d = assembly a /\
               backgroundColor d = color a)
      [ {| line := 2; file := "t.c"; assembly := instr "ret";
           code := "{ return 1;"; color := Some "#e5d8bd" |} ] ds.
Proof.
  apply (decorations_of_pass ".asme-t.c"
           (unchanged sample_doc ["; File .asme-t.c"; "; 2 :"; instr "ret"])
           sample_doc).
  - repeat constructor; discriminate.
  - reflexivity.
Defined.

(** X13: whatever the document did while the listing was read, and against
    any later text of the document that has at least one line, the
    decorations are built without throwing, each on the line
    [min line lineCount - 1] of that text, which is one of its lines. *)
Theorem decorations_of_pass_later_document
    (tmppath : string) (stream : list (TextDocument * string))
    (doc doc' : TextDocument) (out : list AssemblyListing) :
  _decorateMSVC tmppath stream doc = Returned out ->
  1 <= lineCount doc' ->
  exists ds,
    decorations doc' out = Returned ds /\
    Forall2 (fun a d =>
               range d = Z.min (line a) (lineCount doc') - 1 /\
               0 <= range d < lineCount doc' /\
               hoverMessage d = assembly a /\
               backgroundColor d = color a) out ds.
Proof.
  intros Hout Hn.
  pose proof (_decorateMSVC_lines_positive tmppath stream doc out Hout) as Hr.
  destruct (decorations_total doc' out) as (ds & Hds & Hall);
    [assumption|assumption|].
  exists ds. split; [assumption|].
  apply (Forall2_Forall_impl _ _ _ _ _ Hr Hall).
  intros a d Hra (Hrg & Hh & Hb). repeat split; auto; lia.
Qed.

Lemma decorations_of_pass_later_document_witness :
  exists ds,
    decorations {| fileName := "t.c"; text_lines := ["int f() { return 1; }"] |}
      [ {| line := 2; file := "t.c"; assembly := instr "ret";
           code := "{ return 1;"; color := Some "#e5d8bd" |} ] = Returned ds /\
    Forall2 (fun a d =>
               range d = Z.min (line a) 1 - 1 /\
               0 <= range d < 1 /\
               hoverMessage d = assembly a /\
               backgroundColor d = color a)
      [ {| line := 2; file := "t.c"; assembly := instr "ret";
           code := "{ return 1;"; color := Some "#e5d8bd" |} ] ds.
Proof.
  apply (decorations_of_pass_later_document ".asme-t.c"
           (unchanged sample_doc ["; File .asme-t.c"; "; 2 :"; instr "ret"])
           sample_doc
           {| fileName := "t.c"; text_lines := ["int f() { return 1; }"] |}).
  - reflexivity.
  - vm_compute. discriminate.
Defined.

(** ** The script of the viewer *)

Section ViewerFacts.
Import Js.


Lemma string_length_app (a b : string) :
  String.length (a ++ b) = (String.length a + String.length b)%nat.
Proof. induction a as [|x a IH]; simpl; [reflexivity|now rewrite IH]. Qed.


















End ViewerFacts.





(** ** [pad] *)

Section PadFacts.

Lemma join_holes_length (p : string) (n : nat) :
  String.length (Js.join p (repeat "" n)) = (pred n * String.length p)%nat.
Proof.
  induction n as [|[|n] IH]; try reflexivity.
  change (repeat "" (S (S n))) with ("" :: repeat "" (S n)).
  change (Js.join p ("" :: repeat "" (S n)))
    with ("" ++ p ++ Js.join p (repeat "" (S n))).
  change ("" ++ ?s) with s. rewrite string_length_app, IH. simpl. lia.
Qed.

End PadFacts.

(** X16: with a pad of one unit and an integer [count], [pad] throws exactly
    when [count - str.length] reaches 2^32, where [Array(n)] refuses the
    length, or when the padded string would be longer than the engine allows.
    Otherwise it returns [str] with pads in front up to the width [count - 1],
    one short of [count]; a [str] that is that wide or wider comes back as it
    is. *)
Theorem pad_width (max_string_length : Z) (str p : string) (count : Z) :
  String.length p = 1%nat ->
  (pad max_string_length str p count = Thrown <->
   4294967296 <= count - Z.of_nat (String.length str) \/
   max_string_length < Z.max (Z.of_nat (String.length str)) (count - 1)) /\
  (forall s,
      pad max_string_length str p count = Returned s ->
      Z.of_nat (String.length s) =
        Z.max (Z.of_nat (String.length str)) (count - 1) /\
      (count - 1 <= Z.of_nat (String.length str) -> s = str)).
Proof.
  intros Hp. unfold pad. cbv zeta.
  set (n := Z.max 0 (count - Z.of_nat (String.length str))).
  destruct (Z.leb_spec 4294967296 n) as [Hbig|Hsmall].
  { split; [|discriminate]. split; [left; lia|reflexivity]. }
  assert (Hlen : Z.of_nat
            (String.length (Js.join p (repeat "" (Z.to_nat n)) ++ str)) =
          Z.max (Z.of_nat (String.length str)) (count - 1)).
  { rewrite string_length_app, join_holes_length, Hp. lia. }
  rewrite Hlen.
  destruct (Z.ltb_spec max_string_length
              (Z.max (Z.of_nat (String.length str)) (count - 1))) as [Hlong|Hfit].
  - split; [|discriminate]. split; [right; lia|reflexivity].
  - split; [split; [discriminate|lia]|].
    intros s E. inversion E as [Es]. split; [exact Hlen|].
    intros Hle.
    assert (E0 : Z.to_nat n = 0%nat \/ Z.to_nat n = 1%nat) by lia.
    destruct E0 as [-> | ->]; reflexivity.
Qed.

Lemma pad_width_witness :
  (pad 9007199254740991 "7" "0" 4 = Thrown <->
   4294967296 <= 4 - Z.of_nat (String.length "7") \/
   9007199254740991 < Z.max (Z.of_nat (String.length "7")) (4 - 1)) /\
  (forall s,
      pad 9007199254740991 "7" "0" 4 = Returned s ->
      Z.of_nat (String.length s) = Z.max (Z.of_nat (String.length "7")) (4 - 1) /\
      (4 - 1 <= Z.of_nat (String.length "7") -> s = "7")).
Proof.
  apply (pad_width 9007199254740991 "7" "0" 4). reflexivity.
Defined.
